(** * A verification model of the RapidAPI Twitter client (package [twitter])

    The development embeds the request / decode / pagination engine of the
    client (options and [New], [buildUrl], [buildUrlWithParameters], [do],
    [get], [getResult], [getResultPaginated] and the endpoint shims) as Rocq
    functions, next to the older hand-written pagination loops of
    [twitter154/api.go], and proves the properties of the design document
    about them.

    Conventions of the embedding:
    - a Go [string] is a [string] (a sequence of bytes), a [[]byte] is a
      [list byte], a Go slice is a [list] (the nil slice and the empty slice
      are both [[]]), a Go [int] is a [Z];
    - an [error] result is an [option error] ([None] is the nil error);
    - a pointer that may be nil is an [option];
    - the network is a script: the list of the round trips the transport
      will answer, consumed one per [httpClient.Do]. *)

From Stdlib Require Import String Ascii Strings.Byte List ZArith Bool Arith Lia.
From Stdlib Require Import DecimalString.
From Stdlib Require PrimFloat.
Import ListNotations.
Local Open Scope string_scope.
Local Open Scope list_scope.

(* ===================================================================== *)
(** * The Go standard library, as far as the package uses it *)
(* ===================================================================== *)

(** ** Errors *)

(** The error values the package can hold.  [ErrNotImplemented] is the
    package-level value made once by [errors.New("not implemented")];
    [foreign] stands for an error made outside the package (net/http, io,
    encoding/json); the two [Errorf] forms are the two shapes of
    [fmt.Errorf] call the package contains. *)
Inductive error : Type :=
| ErrNotImplemented
| foreign (msg : string)
| Errorf_w (context : string) (cause : error)
| Errorf_status (code : Z).

(** ** fmt *)

(** The dynamic values the package stores in the [value any] field of a
    [param]: strings (identifiers, "true"/"false", tokens) and the integer
    constant [_pageLimit]. *)
Inductive any : Type :=
| any_string (s : string)
| any_int (n : Z).

(** [fmt.Sprintf("%v", v)] *)
Definition Sprint_v (v : any) : string :=
  match v with
  | any_string s => s
  | any_int n => NilZero.string_of_int (Z.to_int n)
  end.

(** ** net/url *)

(** The bytes [url.QueryEscape] leaves as they are: letters, digits and
    [-], [_], [.], [~]. *)
Definition unreserved (c : ascii) : bool :=
  let n := nat_of_ascii c in
  (((97 <=? n) && (n <=? 122)) || ((65 <=? n) && (n <=? 90))
   || ((48 <=? n) && (n <=? 57))
   || (n =? 45) || (n =? 95) || (n =? 46) || (n =? 126))%nat.

Definition upperhex (n : nat) : ascii :=
  match get n "0123456789ABCDEF" with
  | Some c => c
  | None => "0"%char
  end.

(** [url.QueryEscape]: a space becomes [+], every other byte that is not
    unreserved becomes [%XX]. *)
Fixpoint url_QueryEscape (s : string) : string :=
  match s with
  | EmptyString => EmptyString
  | String c rest =>
      let n := nat_of_ascii c in
      if unreserved c then String c (url_QueryEscape rest)
      else if (n =? 32)%nat then String "+" (url_QueryEscape rest)
      else String "%" (String (upperhex (n / 16))
                         (String (upperhex (n mod 16)) (url_QueryEscape rest)))
  end.

(** ** path *)

(** The elements of a path between its slashes. *)
Fixpoint split_slash (s : string) : list string :=
  match s with
  | EmptyString => [EmptyString]
  | String c rest =>
      if (c =? "/")%char then EmptyString :: split_slash rest
      else match split_slash rest with
           | [] => [String c EmptyString]
           | e :: es => String c e :: es
           end
  end.

Definition rooted (s : string) : bool :=
  match s with
  | String c _ => (c =? "/")%char
  | EmptyString => false
  end.

(** One element of [path.Clean]: the stack holds the elements kept so far,
    the last one first. *)
Definition clean_step (is_rooted : bool) (stack : list string) (e : string)
  : list string :=
  if (e =? "") || (e =? ".") then stack
  else if e =? ".." then
    match stack with
    | top :: below =>
        if top =? ".." then e :: stack else below
    | [] => if is_rooted then stack else [e]
    end
  else e :: stack.

(** [path.Clean] *)
Definition path_Clean (s : string) : string :=
  let kept := rev (fold_left (clean_step (rooted s)) (split_slash s) []) in
  let body := String.concat "/" kept in
  if rooted s then "/" ++ body
  else if body =? "" then "." else body.

(** [path.Join]: empty elements are ignored, the rest joined with slashes
    and cleaned; no element at all gives the empty string. *)
Definition path_Join (elem : list string) : string :=
  match filter (fun e => negb (e =? "")) elem with
  | [] => ""
  | kept => path_Clean (String.concat "/" kept)
  end.

(** ** net/http and go.uber.org/ratelimit *)

(** [http.NewRequest("GET", url, nil)] fails when the URL does not parse.
    The parser is not part of the package: it is the one operation of the
    interface below, and returns the parse error if there is one. *)
Class Std : Type := {
  http_NewRequest_err : string -> option error
}.

(** [ratelimit.Limiter]: either made by [ratelimit.New(rate)] or by
    [ratelimit.NewUnlimited()]. *)
Inductive Limiter : Type :=
| ratelimit_New (rate : Z)
| ratelimit_NewUnlimited.

(** An [http.Client] value (only its timeout is kept), and what a
    [*http.Client] can point to: the shared [http.DefaultClient] or the
    copy of a value passed by the caller. *)
Record http_Client : Type := { Timeout : Z }.

Inductive http_Client_ptr : Type :=
| http_DefaultClient
| addr_of (hc : http_Client).

(** A request as the transport sees it. *)
Record Request : Type := {
  Method : string;
  URL : string;
  Header : list (string * string)
}.

(** What reading [resp.Body] with [io.ReadAll] gives. *)
Inductive body_read : Type :=
| ReadAll_err (e : error)
| ReadAll_ok (data : list byte).

(** What one [httpClient.Do] gives: an error, or a response with its
    status code and its body. *)
Inductive round_trip : Type :=
| Do_err (e : error)
| Do_resp (StatusCode : Z) (Body : body_read).

(** [json.Unmarshal(data, &r)] for a response shape [R]: the target [r] is
    read and written, so the result depends on the value it held; the Go
    zero value of [R] is what [var r R] declares. *)
Class Zero (R : Type) : Type := { zero : R }.

Class JSON (R : Type) : Type := {
  json_Unmarshal : list byte -> R -> error + R
}.

(* ===================================================================== *)
(** * Effects: the transport script, the request log, the limiter *)
(* ===================================================================== *)

Record world : Type := {
  pending : list round_trip;   (* the answers the transport will give *)
  sent : list Request;         (* the requests handed to httpClient.Do *)
  taken : nat                  (* the admissions of the rate limiter *)
}.

(** The result of running an operation: it returns, or it asks the
    transport for an answer the script does not hold, or it dereferences a
    nil pointer. *)
Inductive outcome (A : Type) : Type :=
| Ret (a : A) (w : world)
| Starved
| Panic.
Arguments Ret {A} a w.
Arguments Starved {A}.
Arguments Panic {A}.

Definition M (A : Type) : Type := world -> outcome A.

Definition ret {A} (a : A) : M A := fun w => Ret a w.

Definition bind {A B} (m : M A) (k : A -> M B) : M B :=
  fun w => match m w with
           | Ret a w' => k a w'
           | Starved => Starved
           | Panic => Panic
           end.

Definition panic {A} : M A := fun _ => Panic.

Notation "x <- m ;; k" := (bind m (fun x => k))
  (at level 61, m at next level, right associativity).
Notation "' pat <- m ;; k" := (bind m (fun x => match x with pat => k end))
  (at level 61, pat pattern, m at next level, right associativity).

(** A nil pointer dereference panics. *)
Definition deref {A} (p : option A) : M A :=
  match p with
  | Some a => ret a
  | None => panic
  end.

(** [Take()] on the limiter the options point to *)
Definition Take (rl : Limiter) : M unit :=
  fun w => Ret tt {| pending := pending w; sent := sent w; taken := S (taken w) |}.

(** [httpClient.Do(req)]: the request is logged and the next answer of the
    script is consumed. *)
Definition httpClient_Do (hc : http_Client_ptr) (req : Request) : M round_trip :=
  fun w => match pending w with
           | [] => Starved
           | rt :: rest =>
               Ret rt {| pending := rest; sent := sent w ++ [req]; taken := taken w |}
           end.

(* ===================================================================== *)
(** * Configuration: options and [New] *)
(* ===================================================================== *)

Definition _pageLimit : Z := 100.

Record options : Type := {
  host : string;
  rateLimit : option Limiter;
  httpClient : option http_Client_ptr
}.

(** [&options{}] *)
Definition options_zero : options :=
  {| host := ""; rateLimit := None; httpClient := None |}.

(** [type option func(option *options) error]: the function may write the
    struct and returns an error or nil. *)
Definition option_ : Type := options -> options * option error.

Record Client : Type := {
  apiKey : string;
  Client_options : option options
}.

(** The zero [Client], which [New] returns next to an error. *)
Definition Client_zero : Client := {| apiKey := ""; Client_options := None |}.

Definition default_host : string := "twitter154.p.rapidapi.com".

Section Configuration.
Context {std : Std}.

Definition WithHost (h : string) : option_ := fun o =>
  match http_NewRequest_err ("https://" ++ h) with
  | Some err => (o, Some (Errorf_w "invalid host" err))
  | None =>
      ({| host := h; rateLimit := rateLimit o; httpClient := httpClient o |}, None)
  end.

Definition WithRateLimit (rl : Limiter) : option_ := fun o =>
  ({| host := host o; rateLimit := Some rl; httpClient := httpClient o |}, None).

Definition WithHttpClient (hc : http_Client) : option_ := fun o =>
  ({| host := host o; rateLimit := rateLimit o; httpClient := Some (addr_of hc) |},
   None).

(** The loop of [New] over the options: [inl] is the early return with
    the wrapped error, [inr] the struct after every option. *)
Fixpoint apply_options (opts : list option_) (o : options) : error + options :=
  match opts with
  | [] => inr o
  | opt :: rest =>
      match opt o with
      | (_, Some err) => inl (Errorf_w "bad option" err)
      | (o', None) => apply_options rest o'
      end
  end.

(** The three [if] statements of [New] that fill what is still unset. *)
Definition fill_defaults (o : options) : options :=
  let o1 := if host o =? ""
            then {| host := default_host; rateLimit := rateLimit o;
                    httpClient := httpClient o |}
            else o in
  let o2 := match rateLimit o1 with
            | None => {| host := host o1; rateLimit := Some ratelimit_NewUnlimited;
                         httpClient := httpClient o1 |}
            | Some _ => o1
            end in
  match httpClient o2 with
  | None => {| host := host o2; rateLimit := rateLimit o2;
               httpClient := Some http_DefaultClient |}
  | Some _ => o2
  end.

Definition New (key : string) (opts : list option_) : Client * option error :=
  match apply_options opts options_zero with
  | inl err => (Client_zero, Some err)
  | inr o => ({| apiKey := key; Client_options := Some (fill_defaults o) |}, None)
  end.

End Configuration.

(* ===================================================================== *)
(** * The request builder, the executor and the generic engine *)
(* ===================================================================== *)

Record param : Type := {
  key : string;
  value : any
}.

(** [params[len(params)-1].value = v]; [None] is the index out of range. *)
Fixpoint set_last_value (params : list param) (v : any) : option (list param) :=
  match params with
  | [] => None
  | p :: rest =>
      match rest with
      | [] => Some [{| key := key p; value := v |}]
      | _ :: _ => option_map (cons p) (set_last_value rest v)
      end
  end.

(** The two capabilities a response shape can have. *)
Class result (T R : Type) : Type := {
  result_Result : R -> T
}.

Class resultPaginated (T R : Type) : Type := {
  Result : R -> list T;
  Token : R -> string
}.

Section Engine.
Context {std : Std}.

(** [buildUrl]; [None] is the dereference of a nil [c.options]. *)
Definition buildUrl (c : Client) (p : list string) : option string :=
  match Client_options c with
  | None => None
  | Some o => Some ("https://" ++ host o ++ "/" ++ path_Join p)%string
  end.

(** The body of [for i, p := range params] in [buildUrlWithParameters],
    from index [i] on. *)
Fixpoint range_params (i : nat) (params : list param) (uri : string) : string :=
  match params with
  | [] => uri
  | p :: rest =>
      let separator := if (i =? 0)%nat then "?" else "&" in
      range_params (S i) rest
        (uri ++ separator ++ key p ++ "=" ++ url_QueryEscape (Sprint_v (value p)))%string
  end.

Definition buildUrlWithParameters (c : Client) (path : list string)
           (params : list param) : option string :=
  match buildUrl c path with
  | None => None
  | Some uri => Some (range_params 0 params uri)
  end.

Definition do (c : Client) (req : Request) : M (list byte * option error) :=
  o <- deref (Client_options c) ;;
  let req := {| Method := Method req; URL := URL req;
                Header := Header req ++ [("X-RapidAPI-Key", apiKey c);
                                         ("X-RapidAPI-Host", host o)] |} in
  rl <- deref (rateLimit o) ;;
  _ <- Take rl ;;
  hc <- deref (httpClient o) ;;
  resp <- httpClient_Do hc req ;;
  match resp with
  | Do_err err => ret ([], Some (Errorf_w "send request" err))
  | Do_resp StatusCode Body =>
      if ((StatusCode <? 200) || (StatusCode >=? 300))%Z
      then ret ([], Some (Errorf_status StatusCode))
      else match Body with
           | ReadAll_err err => ret ([], Some (Errorf_w "read response body" err))
           | ReadAll_ok data => ret (data, None)
           end
  end.

Definition get (c : Client) (path : list string) (params : list param)
  : M (list byte * option error) :=
  url <- deref (buildUrlWithParameters c path params) ;;
  match http_NewRequest_err url with
  | Some err => ret ([], Some (Errorf_w "create request" err))
  | None => do c {| Method := "GET"; URL := url; Header := [] |}
  end.

Section Generic.
Context {T R : Type} {zero_R : Zero R} {json_R : JSON R}.

Definition getResult {zero_T : Zero T} {result_R : result T R}
           (c : Client) (path : list string) (params : list param)
  : M (T * option error) :=
  '(data, err) <- get c path params ;;
  match err with
  | Some err => ret (zero, Some (Errorf_w "get" err))
  | None =>
      match json_Unmarshal data (zero : R) with
      | inl err => ret (zero, Some (Errorf_w "unmarshal response" err))
      | inr r => ret (result_Result r, None)
      end
  end.

Context {paginated_R : resultPaginated T R}.

(** The [for len(r.Result()) != 0] loop of [getResultPaginated].  An
    iteration that goes on consumes one answer of the script, so the
    loop is run with a bound above the number of answers left: the
    bound is never what stops it (lemma [paginate_fuel]). *)
Fixpoint paginate (fuel : nat) (c : Client) (path : list string)
         (params : list param) (r : R) (results : list T)
  : M (list T * option error) :=
  match Result r with
  | [] => ret (results, None)
  | _ :: _ =>
      match fuel with
      | O => fun _ => Starved
      | S fuel' =>
          let results := results ++ Result r in
          '(data, err) <- get c path params ;;
          match err with
          | Some err => ret ([], Some (Errorf_w "get" err))
          | None =>
              match json_Unmarshal data r with
              | inl err => ret ([], Some (Errorf_w "unmarshal response" err))
              | inr r' =>
                  params' <- deref (set_last_value params (any_string (Token r'))) ;;
                  paginate fuel' c path params' r' results
              end
          end
      end
  end.

(** [getResultPaginated]: the first fetch into a zero [r], the two
    [append]s, then the loop, bounded by one more than the answers the
    script still holds when the loop is entered. *)
Definition getResultPaginated (c : Client) (path : list string)
           (params : list param) : M (list T * option error) :=
  '(data, err) <- get c path params ;;
  match err with
  | Some err => ret ([], Some (Errorf_w "get" err))
  | None =>
      match json_Unmarshal data (zero : R) with
      | inl err => ret ([], Some (Errorf_w "unmarshal response" err))
      | inr r =>
          let path := path ++ ["continuation"] in
          let params := params ++ [{| key := "continuation_token";
                                      value := any_string (Token r) |}] in
          fun w => paginate (S (length (pending w))) c path params r [] w
      end
  end.

End Generic.

End Engine.

(* ===================================================================== *)
(** * Response shapes and endpoint shims *)
(* ===================================================================== *)

Record getUsernameResponse : Type := {
  UserId : string;
  Username : string
}.

Record getUserTweetsResponse (Tweet : Type) : Type := {
  tweets_Results : list Tweet;
  tweets_ContinuationToken : string
}.
Arguments tweets_Results {Tweet} _.
Arguments tweets_ContinuationToken {Tweet} _.

Record getUserFollowsResponse (User : Type) : Type := {
  follows_Results : list User;
  follows_ContinuationToken : string
}.
Arguments follows_Results {User} _.
Arguments follows_ContinuationToken {User} _.

Record getTweetRepliesResponse (Tweet : Type) : Type := {
  Replies : list Tweet;
  replies_ContinuationToken : string
}.
Arguments Replies {Tweet} _.
Arguments replies_ContinuationToken {Tweet} _.

Record getUserFavoritesResponse (User : Type) : Type := {
  Favoriters : list User;
  favorites_ContinuationToken : string
}.
Arguments Favoriters {User} _.
Arguments favorites_ContinuationToken {User} _.

#[export] Instance getUsernameResponse_zero : Zero getUsernameResponse :=
  {| zero := {| UserId := ""; Username := "" |} |}.
#[export] Instance getUsernameResponse_result : result string getUsernameResponse :=
  {| result_Result := Username |}.
#[export] Instance string_zero : Zero string := {| zero := "" |}.

#[export] Instance getUserTweetsResponse_zero {Tweet} : Zero (getUserTweetsResponse Tweet) :=
  {| zero := {| tweets_Results := []; tweets_ContinuationToken := "" |} |}.
#[export] Instance getUserTweetsResponse_paginated {Tweet}
  : resultPaginated Tweet (getUserTweetsResponse Tweet) :=
  {| Result := tweets_Results; Token := tweets_ContinuationToken |}.

#[export] Instance getUserFollowsResponse_zero {User} : Zero (getUserFollowsResponse User) :=
  {| zero := {| follows_Results := []; follows_ContinuationToken := "" |} |}.
#[export] Instance getUserFollowsResponse_paginated {User}
  : resultPaginated User (getUserFollowsResponse User) :=
  {| Result := follows_Results; Token := follows_ContinuationToken |}.

#[export] Instance getTweetRepliesResponse_zero {Tweet}
  : Zero (getTweetRepliesResponse Tweet) :=
  {| zero := {| Replies := []; replies_ContinuationToken := "" |} |}.
#[export] Instance getTweetRepliesResponse_paginated {Tweet}
  : resultPaginated Tweet (getTweetRepliesResponse Tweet) :=
  {| Result := Replies; Token := replies_ContinuationToken |}.

#[export] Instance getUserFavoritesResponse_zero {User}
  : Zero (getUserFavoritesResponse User) :=
  {| zero := {| Favoriters := []; favorites_ContinuationToken := "" |} |}.
#[export] Instance getUserFavoritesResponse_paginated {User}
  : resultPaginated User (getUserFavoritesResponse User) :=
  {| Result := Favoriters; Token := favorites_ContinuationToken |}.

(** [type getUserResponse = User] and [type getTweetDetailsResponse = Tweet]:
    the response is the value itself. *)
Definition identity_result (A : Type) : result A A := {| result_Result := fun r => r |}.

Record getUserTweetsOptions : Type := {
  includeReplies : bool;
  includePinned : bool
}.

Definition getUserTweetsOption : Type := getUserTweetsOptions -> getUserTweetsOptions.

Definition IncludeReplies : getUserTweetsOption := fun o =>
  {| includeReplies := true; includePinned := includePinned o |}.

Definition IncludePinned : getUserTweetsOption := fun o =>
  {| includeReplies := includeReplies o; includePinned := true |}.

(** The parameter list [GetUserTweets] builds before it fetches (the same
    statements in both versions of the function). *)
Definition GetUserTweets_params (userId : string) (opts : list getUserTweetsOption)
  : list param :=
  let params := [ {| key := "user_id"; value := any_string userId |};
                  {| key := "limit"; value := any_int _pageLimit |} ] in
  let o := fold_left (fun o opt => opt o) opts
                     {| includeReplies := false; includePinned := false |} in
  let params :=
    if includeReplies o
    then params ++ [ {| key := "include_replies"; value := any_string "true" |} ]
    else params ++ [ {| key := "include_replies"; value := any_string "false" |} ] in
  if includePinned o
  then params ++ [ {| key := "include_pinned"; value := any_string "true" |} ]
  else params ++ [ {| key := "include_pinned"; value := any_string "false" |} ].

(** [float64] fields are kept as binary64 floats. *)
Record geoSearchOptions : Type := {
  latitude : PrimFloat.float;
  longitude : PrimFloat.float;
  radius : Z;
  language : string
}.

Definition geoSearchOption : Type := geoSearchOptions -> geoSearchOptions.

Section Endpoints.
Context {std : Std}.
Context {Tweet User : Type} {zero_Tweet : Zero Tweet} {zero_User : Zero User}.
Context {json_username : JSON getUsernameResponse}
        {json_User : JSON User} {json_Tweet : JSON Tweet}.
Context {json_tweets : JSON (getUserTweetsResponse Tweet)}
        {json_follows : JSON (getUserFollowsResponse User)}.
Context {json_replies : JSON (getTweetRepliesResponse Tweet)}
        {json_favorites : JSON (getUserFavoritesResponse User)}.

Definition GetUsername (c : Client) (userId : string) : M (string * option error) :=
  getResult (R := getUsernameResponse) c ["user"; "username"]
            [ {| key := "user_id"; value := any_string userId |} ].

Definition GetUser (c : Client) (userId : string) : M (User * option error) :=
  getResult (R := User) (result_R := identity_result User) c ["user"; "details"]
            [ {| key := "user_id"; value := any_string userId |} ].

Definition GetUserByUsername (c : Client) (username : string) : M (User * option error) :=
  getResult (R := User) (result_R := identity_result User) c ["user"; "details"]
            [ {| key := "username"; value := any_string username |} ].

Definition GetUserTweets (c : Client) (userId : string) (opts : list getUserTweetsOption)
  : M (list Tweet * option error) :=
  getResultPaginated (R := getUserTweetsResponse Tweet) c ["user"; "tweets"]
                     (GetUserTweets_params userId opts).

Definition GetUserFollowing (c : Client) (userId : string) : M (list User * option error) :=
  getResultPaginated (R := getUserFollowsResponse User) c ["user"; "following"]
    [ {| key := "user_id"; value := any_string userId |};
      {| key := "limit"; value := any_int _pageLimit |} ].

Definition GetUserFollowers (c : Client) (userId : string) : M (list User * option error) :=
  getResultPaginated (R := getUserFollowsResponse User) c ["user"; "followers"]
    [ {| key := "user_id"; value := any_string userId |};
      {| key := "limit"; value := any_int _pageLimit |} ].

Definition GetTweetReplies (c : Client) (tweetId : string) : M (list Tweet * option error) :=
  getResultPaginated (R := getTweetRepliesResponse Tweet) c ["tweet"; "replies"]
    [ {| key := "tweet_id"; value := any_string tweetId |} ].

Definition GetTweetDetails (c : Client) (tweetId : string) : M (Tweet * option error) :=
  getResult (R := Tweet) (result_R := identity_result Tweet) c ["tweet"; "details"]
            [ {| key := "tweet_id"; value := any_string tweetId |} ].

Definition GetTweetUserFavorites (c : Client) (tweetId : string)
  : M (list User * option error) :=
  getResultPaginated (R := getUserFavoritesResponse User) c ["tweet"; "favoriters"]
    [ {| key := "tweet_id"; value := any_string tweetId |} ].

(** The endpoints that are not implemented: each returns its zero result
    and the sentinel.  [List], [Trend] and [Location] are [any]; the zero
    value of an [any] result is the nil interface, [None]. *)
Definition GetUserLikes (c : Client) (userId : string) : M (list Tweet * option error) :=
  ret ([], Some ErrNotImplemented).

Definition GetUserMedia (c : Client) (userId : string) : M (option any * option error) :=
  ret (None, Some ErrNotImplemented).

Definition GetTweetUserRetweets (c : Client) (tweetId : string)
  : M (list User * option error) :=
  ret ([], Some ErrNotImplemented).

Definition Search (c : Client) (query : string) : M (list Tweet * option error) :=
  ret ([], Some ErrNotImplemented).

Definition GeoSearch (c : Client) (query : string)
           (opts : list geoSearchOption) : M (list Tweet * option error) :=
  ret ([], Some ErrNotImplemented).

Definition Hashtag (c : Client) (hashtag : string) : M (list Tweet * option error) :=
  ret ([], Some ErrNotImplemented).

Definition GetListDetails (c : Client) (listId : string) : M (option any * option error) :=
  ret (None, Some ErrNotImplemented).

Definition GetListTweets (c : Client) (listId : string) : M (list Tweet * option error) :=
  ret ([], Some ErrNotImplemented).

Definition GetTrends (c : Client) (woeId : Z) : M (list (option any) * option error) :=
  ret ([], Some ErrNotImplemented).

Definition GetLocations (c : Client) : M (list (option any) * option error) :=
  ret ([], Some ErrNotImplemented).

End Endpoints.

(* ===================================================================== *)
(** * The hand-written loops of [twitter154/api.go] *)
(* ===================================================================== *)

(** [twitter154/api.go] declares the same options, [New], [buildUrl] and
    [do] (the text is the same, so the definitions above are used); its
    [buildUrlWithParameters] and its paginated endpoints differ and are
    embedded here. *)
Module Legacy.

(** The response of [GetTweetUserFavorites] in this file: the list is the
    field [Favorites]. *)
Record getUserFavoritesResponse (User : Type) : Type := {
  Favorites : list User;
  Favorites_ContinuationToken : string
}.
Arguments Favorites {User} _.
Arguments Favorites_ContinuationToken {User} _.

#[global] Instance getUserFavoritesResponse_zero {User}
  : Zero (getUserFavoritesResponse User) :=
  {| zero := {| Favorites := []; Favorites_ContinuationToken := "" |} |}.

Section Legacy.
Context {std : Std}.

Fixpoint range_params (i : nat) (params : list param) (url : string) : string :=
match params with
| [] => url
| p :: rest =>
    let separator := if (i =? 0)%nat then "?" else "&" in
    range_params (S i) rest
      (url ++ separator ++ key p ++ "=" ++ Sprint_v (value p))%string
end.

Definition buildUrlWithParameters (c : Client) (path : list string)
         (params : list param) : option string :=
match buildUrl c path with
| None => None
| Some url => Some (range_params 0 params url)
end.

Definition get (c : Client) (path : list string) (params : list param)
: M (list byte * option error) :=
url <- deref (buildUrlWithParameters c path params) ;;
match http_NewRequest_err url with
| Some err => ret ([], Some (Errorf_w "create request" err))
| None => do c {| Method := "GET"; URL := url; Header := [] |}
end.

(** [append(s[:len(s)-1], p)]; [None] is the slice bound out of range. *)
Definition replace_last (s : list param) (p : param) : option (list param) :=
match s with
| [] => None
| _ :: _ => Some (removelast s ++ [p])
end.

Context {Tweet : Type}.
Context {json_tweets : JSON (getUserTweetsResponse Tweet)}
      {json_replies : JSON (getTweetRepliesResponse Tweet)}.

(** The [for token != ""] loop of [GetUserTweets].  As in [paginate], an
  iteration consumes one answer of the script and the bound is above
  the number of answers left. *)
Fixpoint GetUserTweets_loop (fuel : nat) (c : Client) (token : string)
       (continutationParams : list param) (tweets : list Tweet)
: M (list Tweet * option error) :=
if (token =? "")%string then ret (tweets, None)
else
  match fuel with
  | O => fun _ => Starved
  | S fuel' =>
      '(data, err) <- get c ["user"; "tweets"; "continuation"] continutationParams ;;
      match err with
      | Some err => ret ([], Some (Errorf_w "get user" err))
      | None =>
          match json_Unmarshal data (zero : getUserTweetsResponse Tweet) with
          | inl err => ret ([], Some (Errorf_w "unmarshal response" err))
          | inr r =>
              let tweets := tweets ++ tweets_Results r in
              let token := tweets_ContinuationToken r in
              continutationParams <-
                deref (replace_last continutationParams
                         {| key := "continuation_token"; value := any_string token |}) ;;
              GetUserTweets_loop fuel' c token continutationParams tweets
          end
      end
  end.

Definition GetUserTweets (c : Client) (userId : string) (opts : list getUserTweetsOption)
: M (list Tweet * option error) :=
let params := GetUserTweets_params userId opts in
let tweets : list Tweet := [] in
'(data, err) <- get c ["user"; "tweets"] params ;;
match err with
| Some err => ret ([], Some (Errorf_w "get user" err))
| None =>
    match json_Unmarshal data (zero : getUserTweetsResponse Tweet) with
    | inl err => ret ([], Some (Errorf_w "unmarshal response" err))
    | inr r =>
        let token := tweets_ContinuationToken r in
        let continutationParams :=
          params ++ [ {| key := "continuation_token"; value := any_string token |} ] in
        fun w => GetUserTweets_loop (S (length (pending w))) c token
                                    continutationParams tweets w
    end
end.

(** The loop of [GetTweetReplies]. *)
Fixpoint GetTweetReplies_loop (fuel : nat) (c : Client) (token : string)
       (continutationParams : list param) (replies : list Tweet)
: M (list Tweet * option error) :=
if (token =? "")%string then ret (replies, None)
else
  match fuel with
  | O => fun _ => Starved
  | S fuel' =>
      '(data, err) <- get c ["tweet"; "replies"; "continuation"] continutationParams ;;
      match err with
      | Some err => ret ([], Some (Errorf_w "get tweet replies" err))
      | None =>
          match json_Unmarshal data (zero : getTweetRepliesResponse Tweet) with
          | inl err => ret ([], Some (Errorf_w "unmarshal response" err))
          | inr r =>
              let replies := replies ++ Replies r in
              let token := replies_ContinuationToken r in
              continutationParams <-
                deref (replace_last continutationParams
                         {| key := "continuation_token"; value := any_string token |}) ;;
              GetTweetReplies_loop fuel' c token continutationParams replies
          end
      end
  end.

Definition GetTweetReplies (c : Client) (tweetId : string)
: M (list Tweet * option error) :=
let replies : list Tweet := [] in
let params := [ {| key := "tweet_id"; value := any_string tweetId |} ] in
'(data, err) <- get c ["tweet"; "replies"] params ;;
match err with
| Some err => ret ([], Some (Errorf_w "get tweet replies" err))
| None =>
    match json_Unmarshal data (zero : getTweetRepliesResponse Tweet) with
    | inl err => ret ([], Some (Errorf_w "unmarshal response" err))
    | inr r =>
        let replies := replies ++ Replies r in
        let token := replies_ContinuationToken r in
        let continutationParams :=
          params ++ [ {| key := "continuation_token"; value := any_string token |} ] in
        fun w => GetTweetReplies_loop (S (length (pending w))) c token
                                      continutationParams replies w
    end
end.

(** [GetUsername]: its local type [response] has the fields of
    [getUsernameResponse]. *)
Context {json_username : JSON getUsernameResponse}.

Definition GetUsername (c : Client) (userId : string) : M (string * option error) :=
'(data, err) <- get c ["user"; "id"] [ {| key := "user_id"; value := any_string userId |} ] ;;
match err with
| Some err => ret ("", Some (Errorf_w "get user" err))
| None =>
    match json_Unmarshal data (zero : getUsernameResponse) with
    | inl err => ret ("", Some (Errorf_w "unmarshal response" err))
    | inr r => ret (Username r, None)
    end
end.

(** [GetUserFollowing] and [GetUserFollowers]: their response types,
    [getUserFollowingResponse] and [getUserFollowersResponse], have the
    fields and the tags of [getUserFollowsResponse]. *)
Context {User : Type}.
Context {json_follows : JSON (getUserFollowsResponse User)}
      {json_favorites : JSON (getUserFavoritesResponse User)}.

Fixpoint GetUserFollowing_loop (fuel : nat) (c : Client) (token : string)
       (continutationParams : list param) (following : list User)
: M (list User * option error) :=
if (token =? "")%string then ret (following, None)
else
  match fuel with
  | O => fun _ => Starved
  | S fuel' =>
      '(data, err) <- get c ["user"; "following"; "continuation"] continutationParams ;;
      match err with
      | Some err => ret ([], Some (Errorf_w "get user" err))
      | None =>
          match json_Unmarshal data (zero : getUserFollowsResponse User) with
          | inl err => ret ([], Some (Errorf_w "unmarshal response" err))
          | inr r =>
              let following := following ++ follows_Results r in
              let token := follows_ContinuationToken r in
              continutationParams <-
                deref (replace_last continutationParams
                         {| key := "continuation_token"; value := any_string token |}) ;;
              GetUserFollowing_loop fuel' c token continutationParams following
          end
      end
  end.

Definition GetUserFollowing (c : Client) (userId : string)
: M (list User * option error) :=
let params := [ {| key := "user_id"; value := any_string userId |};
                {| key := "limit"; value := any_int _pageLimit |} ] in
let following : list User := [] in
'(data, err) <- get c ["user"; "following"] params ;;
match err with
| Some err => ret ([], Some (Errorf_w "get user" err))
| None =>
    match json_Unmarshal data (zero : getUserFollowsResponse User) with
    | inl err => ret ([], Some (Errorf_w "unmarshal response" err))
    | inr r =>
        let token := follows_ContinuationToken r in
        let continutationParams :=
          params ++ [ {| key := "continuation_token"; value := any_string token |} ] in
        fun w => GetUserFollowing_loop (S (length (pending w))) c token
                                       continutationParams following w
    end
end.

Fixpoint GetUserFollowers_loop (fuel : nat) (c : Client) (token : string)
       (continutationParams : list param) (followers : list User)
: M (list User * option error) :=
if (token =? "")%string then ret (followers, None)
else
  match fuel with
  | O => fun _ => Starved
  | S fuel' =>
      '(data, err) <- get c ["user"; "followers"; "continuation"] continutationParams ;;
      match err with
      | Some err => ret ([], Some (Errorf_w "get user" err))
      | None =>
          match json_Unmarshal data (zero : getUserFollowsResponse User) with
          | inl err => ret ([], Some (Errorf_w "unmarshal response" err))
          | inr r =>
              let followers := followers ++ follows_Results r in
              let token := follows_ContinuationToken r in
              continutationParams <-
                deref (replace_last continutationParams
                         {| key := "continuation_token"; value := any_string token |}) ;;
              GetUserFollowers_loop fuel' c token continutationParams followers
          end
      end
  end.

Definition GetUserFollowers (c : Client) (userId : string)
: M (list User * option error) :=
let params := [ {| key := "user_id"; value := any_string userId |};
                {| key := "limit"; value := any_int _pageLimit |} ] in
let followers : list User := [] in
'(data, err) <- get c ["user"; "followers"] params ;;
match err with
| Some err => ret ([], Some (Errorf_w "get user" err))
| None =>
    match json_Unmarshal data (zero : getUserFollowsResponse User) with
    | inl err => ret ([], Some (Errorf_w "unmarshal response" err))
    | inr r =>
        let token := follows_ContinuationToken r in
        let continutationParams :=
          params ++ [ {| key := "continuation_token"; value := any_string token |} ] in
        fun w => GetUserFollowers_loop (S (length (pending w))) c token
                                       continutationParams followers w
    end
end.

(** The loop of [GetTweetUserFavorites]. *)
Fixpoint GetTweetUserFavorites_loop (fuel : nat) (c : Client) (token : string)
       (continutationParams : list param) (users : list User)
: M (list User * option error) :=
if (token =? "")%string then ret (users, None)
else
  match fuel with
  | O => fun _ => Starved
  | S fuel' =>
      '(data, err) <- get c ["tweet"; "favoriters"; "continuation"] continutationParams ;;
      match err with
      | Some err => ret ([], Some (Errorf_w "get tweet favorites" err))
      | None =>
          match json_Unmarshal data (zero : getUserFavoritesResponse User) with
          | inl err => ret ([], Some (Errorf_w "unmarshal response" err))
          | inr r =>
              let users := users ++ Favorites r in
              let token := Favorites_ContinuationToken r in
              continutationParams <-
                deref (replace_last continutationParams
                         {| key := "continuation_token"; value := any_string token |}) ;;
              GetTweetUserFavorites_loop fuel' c token continutationParams users
          end
      end
  end.

Definition GetTweetUserFavorites (c : Client) (tweetId : string)
: M (list User * option error) :=
let users : list User := [] in
let params := [ {| key := "tweet_id"; value := any_string tweetId |} ] in
'(data, err) <- get c ["tweet"; "favoriters"] params ;;
match err with
| Some err => ret ([], Some (Errorf_w "get tweet favorites" err))
| None =>
    match json_Unmarshal data (zero : getUserFavoritesResponse User) with
    | inl err => ret ([], Some (Errorf_w "unmarshal response" err))
    | inr r =>
        let users := users ++ Favorites r in
        let token := Favorites_ContinuationToken r in
        let continutationParams :=
          params ++ [ {| key := "continuation_token"; value := any_string token |} ] in
        fun w => GetTweetUserFavorites_loop (S (length (pending w))) c token
                                            continutationParams users w
    end
end.

End Legacy.
End Legacy.

(* ===================================================================== *)
(** * Vocabulary of the statements *)
(* ===================================================================== *)

(** What a run returned, if it did. *)
Definition returned {A : Type} (o : outcome A) : option A :=
  match o with
  | Ret a _ => Some a
  | Starved | Panic => None
  end.

(** A client as [New] builds it: the three option fields are set. *)
Definition ready_client (apikey h : string) (rl : Limiter) (hc : http_Client_ptr) : Client :=
  {| apiKey := apikey;
     Client_options := Some {| host := h; rateLimit := Some rl; httpClient := Some hc |} |}.

(** The query string as the design document words it: [?] before the
    first pair, [&] before each of the others, every value escaped on its
    own. *)
Definition pair_text (p : param) : string :=
  (key p ++ "=" ++ url_QueryEscape (Sprint_v (value p)))%string.

Fixpoint amp_pairs (params : list param) : string :=
  match params with
  | [] => ""
  | p :: rest => ("&" ++ pair_text p ++ amp_pairs rest)%string
  end.

Definition query_string (params : list param) : string :=
  match params with
  | [] => ""
  | p :: rest => ("?" ++ pair_text p ++ amp_pairs rest)%string
  end.

(** A request with the two headers [do] adds. *)
Definition authorized (apikey h : string) (req : Request) : Request :=
  {| Method := Method req; URL := URL req;
     Header := Header req ++ [("X-RapidAPI-Key", apikey); ("X-RapidAPI-Host", h)] |}.

(** The request [get] hands to the transport for a URL. *)
Definition request_to (apikey h url : string) : Request :=
  authorized apikey h {| Method := "GET"; URL := url; Header := [] |}.

(** The URL of a path and its parameters under a host, as the design
    document describes it. *)
Definition url_of (h : string) (path : list string) (params : list param) : string :=
  ("https://" ++ h ++ "/" ++ path_Join path ++ query_string params)%string.

(** What [do] returns for an answer of the transport. *)
Definition respond (resp : round_trip) : list byte * option error :=
  match resp with
  | Do_err err => ([], Some (Errorf_w "send request" err))
  | Do_resp StatusCode Body =>
      if ((StatusCode <? 200) || (StatusCode >=? 300))%Z
      then ([], Some (Errorf_status StatusCode))
      else match Body with
           | ReadAll_err err => ([], Some (Errorf_w "read response body" err))
           | ReadAll_ok data => (data, None)
           end
  end.

(** A round trip that delivers a body: the status is in [200, 299] and
    the body was read. *)
Definition delivers (resp : round_trip) (data : list byte) : Prop :=
  exists code, (200 <= code <= 299)%Z /\ resp = Do_resp code (ReadAll_ok data).

(** The world after one more request was sent and answered. *)
Definition after_round_trip (w : world) (req : Request) (rest : list round_trip) : world :=
  {| pending := rest; sent := sent w ++ [req]; taken := S (taken w) |}.

Definition continuation_param (token : string) : param :=
  {| key := "continuation_token"; value := any_string token |}.

(** The URL and the request of a fetch after the first, for the token of
    the page before it. *)
Definition continuation_url (h : string) (path : list string) (params : list param)
           (token : string) : string :=
  url_of h (path ++ ["continuation"]) (params ++ [continuation_param token]).

Definition continuation_request {T R : Type} {paginated_R : resultPaginated T R}
           (apikey h : string) (path : list string) (params : list param) (p : R)
  : Request :=
  request_to apikey h (continuation_url h path params (Token p)).

(** The pages a script decodes to: each answer delivers a body, and each
    body is unmarshalled into the value the previous one left. *)
Inductive fetched {R : Type} {json_R : JSON R} : R -> list round_trip -> list R -> Prop :=
| fetched_nil : forall r, fetched r [] []
| fetched_cons : forall r resp data r' answers pages,
    delivers resp data ->
    json_Unmarshal data r = inr r' ->
    fetched r' answers pages ->
    fetched r (resp :: answers) (r' :: pages).

(** The pages a script decodes to when every body is unmarshalled into a
    fresh zero value, as the hand-written loops do. *)
Inductive fetched_fresh {R : Type} {zero_R : Zero R} {json_R : JSON R}
  : list round_trip -> list R -> Prop :=
| fetched_fresh_nil : fetched_fresh [] []
| fetched_fresh_cons : forall resp data r answers pages,
    delivers resp data ->
    json_Unmarshal data zero = inr r ->
    fetched_fresh answers pages ->
    fetched_fresh (resp :: answers) (r :: pages).

(** The URL the older [buildUrlWithParameters] builds under a host. *)
Definition legacy_url_of (h : string) (path : list string) (params : list param) : string :=
  Legacy.range_params 0 params ("https://" ++ h ++ "/" ++ path_Join path)%string.

Definition legacy_continuation_url (h : string) (path : list string)
           (params : list param) (token : string) : string :=
  legacy_url_of h (path ++ ["continuation"]) (params ++ [continuation_param token]).

Definition legacy_continuation_request {T R : Type} {paginated_R : resultPaginated T R}
           (apikey h : string) (path : list string) (params : list param) (p : R)
  : Request :=
  request_to apikey h (legacy_continuation_url h path params (Token p)).

(** An error made by one of the package's [fmt.Errorf] calls. *)
Definition made_by_Errorf (e : error) : Prop :=
  match e with
  | Errorf_w _ _ | Errorf_status _ => True
  | ErrNotImplemented | foreign _ => False
  end.

(** The claim on the executor as it is worded: once the transport call
    succeeded, [do] fails exactly when the status code is outside
    [200, 299]. *)
Definition fails_exactly_on_bad_status : Prop :=
  forall (apikey h : string) (rl : Limiter) (hc : http_Client_ptr) (req : Request)
         (w w' : world) (code : Z) (body : body_read) (rest : list round_trip)
         (data : list byte) (err : option error),
    pending w = Do_resp code body :: rest ->
    do (ready_client apikey h rl hc) req w = Ret (data, err) w' ->
    (err <> None <-> (code < 200 \/ 299 < code)%Z).

Section Reports.
Context {T R : Type}.
Context {zero_R : Zero R} {json_R : JSON R} {paginated_R : resultPaginated T R}.
Variables (apikey h : string) (path : list string) (params : list param).

(** How the answer after the pages fetched so far can fail: the round
    trip fails, or its body does not unmarshal into the page before. *)
Definition fails_after (r : R) (bad : round_trip) (e : error) : Prop :=
  (exists d e0, respond bad = (d, Some e0) /\ e = Errorf_w "get" e0)
  \/ (exists data e0, delivers bad data /\ json_Unmarshal data r = inl e0
                      /\ e = Errorf_w "unmarshal response" e0).

(** What a return of the loop tells about the script it ran on: the
    answers it used decode to successive pages, the requests it sent carry
    the tokens of these pages in order, each request used one answer; a
    nil error means the pages ran up to an empty one and all their items
    are returned, an error comes with the nil list. *)
Definition loop_report (r : R) (acc : list T) (w w' : world)
           (res : list T) (err : option error) : Prop :=
  exists (answers : list round_trip) (nexts : list R) (m : nat),
    fetched r answers nexts
    /\ (exists tl, pending w = answers ++ tl)
    /\ sent w' = sent w ++ firstn m (map (continuation_request apikey h path params)
                                        (r :: nexts))
    /\ m <= S (length nexts)
    /\ length (pending w) = m + length (pending w')
    /\ taken w' = taken w + m
    /\ match err with
       | None =>
           exists front last,
           r :: nexts = front ++ [last]
           /\ pending w = answers ++ pending w'
           /\ Forall (fun p => Result p <> []) front
           /\ Result last = []
           /\ res = acc ++ concat (map Result front)
       | Some e => res = [] /\ made_by_Errorf e
       end.

(** The same for the whole call. *)
Definition call_report (w w' : world) (res : list T) (err : option error) : Prop :=
  exists (answers : list round_trip) (pages : list R) (m : nat),
    fetched zero answers pages
    /\ (exists tl, pending w = answers ++ tl)
    /\ sent w' = sent w ++ firstn m (request_to apikey h (url_of h path params)
                                     :: map (continuation_request apikey h path params)
                                            pages)
    /\ m <= S (length pages)
    /\ length (pending w) = m + length (pending w')
    /\ taken w' = taken w + m
    /\ match err with
       | None =>
           exists front last,
           pages = front ++ [last]
           /\ pending w = answers ++ pending w'
           /\ Forall (fun p => Result p <> []) front
           /\ Result last = []
           /\ res = concat (map Result front)
       | Some e => res = [] /\ made_by_Errorf e
       end.

End Reports.

(* ===================================================================== *)
(** * Samples: a parser, a codec, a client, some answers *)
(* ===================================================================== *)

Fixpoint has_control_byte (s : string) : bool :=
  match s with
  | EmptyString => false
  | String ch rest =>
      (nat_of_ascii ch <? 32)%nat || (nat_of_ascii ch =? 127)%nat || has_control_byte rest
  end.

(** A URL parser that rejects what net/url rejects before anything else,
    a URL that holds an ASCII control byte, and accepts every other URL. *)
Definition sample_std : Std :=
  {| http_NewRequest_err := fun url =>
       if has_control_byte url
       then Some (foreign "net/url: invalid control character in URL")
       else None |}.

(** A wire format for pages of one-byte items, in place of JSON: the first
    byte of the body is the token (the digit 0 for the empty token), the
    other bytes are the items; the empty body does not decode.  Every field
    is written, so the value the target held does not matter. *)
Definition sample_json : JSON (getUserTweetsResponse byte) :=
  {| json_Unmarshal := fun data _ =>
       match data with
       | [] => inl (foreign "unexpected end of JSON input")
       | t :: items =>
           inr {| tweets_Results := items;
                  tweets_ContinuationToken :=
                    if Byte.eqb t "0" then "" else String (ascii_of_byte t) "" |}
       end |}.

(** The same wire format for the pages of replies. *)
Definition sample_json_replies : JSON (getTweetRepliesResponse byte) :=
  {| json_Unmarshal := fun data _ =>
       match data with
       | [] => inl (foreign "unexpected end of JSON input")
       | t :: items =>
           inr {| Replies := items;
                  replies_ContinuationToken :=
                    if Byte.eqb t "0" then "" else String (ascii_of_byte t) "" |}
       end |}.

(** A wire format for the username response: the body is the username,
    and the empty body does not decode. *)
Definition sample_json_username : JSON getUsernameResponse :=
  {| json_Unmarshal := fun data target =>
       match data with
       | [] => inl (foreign "unexpected end of JSON input")
       | _ :: _ => inr {| UserId := UserId target; Username := string_of_list_byte data |}
       end |}.

(** A wire format for a value that is a text: the body is the text, and
    the empty body does not decode. *)
Definition sample_json_text : JSON string :=
  {| json_Unmarshal := fun data _ =>
       match data with
       | [] => inl (foreign "unexpected end of JSON input")
       | _ :: _ => inr (string_of_list_byte data)
       end |}.

(** The same wire format for the pages of users, of the generic engine
    and of [twitter154/api.go]. *)
Definition sample_json_follows : JSON (getUserFollowsResponse byte) :=
  {| json_Unmarshal := fun data _ =>
       match data with
       | [] => inl (foreign "unexpected end of JSON input")
       | t :: items =>
           inr {| follows_Results := items;
                  follows_ContinuationToken :=
                    if Byte.eqb t "0" then "" else String (ascii_of_byte t) "" |}
       end |}.

Definition sample_json_favorites : JSON (Legacy.getUserFavoritesResponse byte) :=
  {| json_Unmarshal := fun data _ =>
       match data with
       | [] => inl (foreign "unexpected end of JSON input")
       | t :: items =>
           inr {| Legacy.Favorites := items;
                  Legacy.Favorites_ContinuationToken :=
                    if Byte.eqb t "0" then "" else String (ascii_of_byte t) "" |}
       end |}.

(** A wire format whose bodies may leave a key out, as a JSON object may:
    the first byte is the token (the digit 0 for the empty token, [-] when
    the body has no token key), the second says whether the body has the
    results key ([-] when it has not), the other bytes are the items.  As
    [json.Unmarshal] does, a field whose key the body does not carry keeps
    the value the target held. *)
Definition sample_json_keeping : JSON (getUserTweetsResponse byte) :=
  {| json_Unmarshal := fun data target =>
       match data with
       | t :: k :: items =>
           inr {| tweets_Results :=
                    if Byte.eqb k "-" then tweets_Results target else items;
                  tweets_ContinuationToken :=
                    if Byte.eqb t "-" then tweets_ContinuationToken target
                    else if Byte.eqb t "0" then ""
                         else String (ascii_of_byte t) "" |}
       | _ => inl (foreign "unexpected end of JSON input")
       end |}.

(** A 200 answer whose body is the page with this token and these items. *)
Definition sample_page (token : byte) (items : list byte) : round_trip :=
  Do_resp 200 (ReadAll_ok (token :: items)).

(** The pages of the samples: items [a b] with token [t], item [c] with
    token [u], no item with token [v], no item with no token. *)
Definition page_ab_t : getUserTweetsResponse byte :=
  {| tweets_Results := ["a"; "b"]%byte; tweets_ContinuationToken := "t" |}.
Definition page_c_u : getUserTweetsResponse byte :=
  {| tweets_Results := ["c"]%byte; tweets_ContinuationToken := "u" |}.
Definition page_none_v : getUserTweetsResponse byte :=
  {| tweets_Results := []; tweets_ContinuationToken := "v" |}.
Definition page_none_end : getUserTweetsResponse byte :=
  {| tweets_Results := []; tweets_ContinuationToken := "" |}.

(** Pages of replies: replies [a b] with token [t], reply [c] with token
    [u], reply [c] with no token, no reply with no token. *)
Definition replies_ab_t : getTweetRepliesResponse byte :=
  {| Replies := ["a"; "b"]%byte; replies_ContinuationToken := "t" |}.
Definition replies_c_end : getTweetRepliesResponse byte :=
  {| Replies := ["c"]%byte; replies_ContinuationToken := "" |}.

(** The client [New] builds when it is given no option. *)
Definition sample_client : Client :=
  ready_client "KEY" "twitter154.p.rapidapi.com" ratelimit_NewUnlimited http_DefaultClient.

Definition sample_world (answers : list round_trip) : world :=
  {| pending := answers; sent := []; taken := 0 |}.

(** A host with a tab in it. *)
Definition sample_bad_host : string :=
  ("bad" ++ String (ascii_of_nat 9) "host")%string.

(* ===================================================================== *)
(** * Vocabulary of the further properties *)
(* ===================================================================== *)

(** The options a caller can write: the type [option] is not exported, so
    its values come from the three exported constructors. *)
Inductive setting : Type :=
| SetHost (h : string)
| SetRateLimit (rl : Limiter)
| SetHttpClient (hc : http_Client).

Definition option_of {std : Std} (s : setting) : option_ :=
  match s with
  | SetHost h => WithHost h
  | SetRateLimit rl => WithRateLimit rl
  | SetHttpClient hc => WithHttpClient hc
  end.

(** The parse error of the first host that does not parse. *)
Fixpoint first_rejected {std : Std} (settings : list setting) : option error :=
  match settings with
  | [] => None
  | SetHost h :: rest =>
      match http_NewRequest_err ("https://" ++ h) with
      | Some err => Some err
      | None => first_rejected rest
      end
  | _ :: rest => first_rejected rest
  end.

(** What the last option of each kind gave, from a starting value. *)
Definition last_host (settings : list setting) (start : string) : string :=
  fold_left (fun acc s => match s with SetHost h => h | _ => acc end) settings start.

Definition last_rateLimit (settings : list setting) (start : option Limiter)
  : option Limiter :=
  fold_left (fun acc s => match s with SetRateLimit rl => Some rl | _ => acc end)
            settings start.

Definition last_httpClient (settings : list setting) (start : option http_Client_ptr)
  : option http_Client_ptr :=
  fold_left (fun acc s => match s with SetHttpClient hc => Some (addr_of hc) | _ => acc end)
            settings start.

(** The options a caller of [GetUserTweets] can write. *)
Inductive tweets_setting : Type :=
| SetIncludeReplies
| SetIncludePinned.

Definition tweets_option_of (s : tweets_setting) : getUserTweetsOption :=
  match s with
  | SetIncludeReplies => IncludeReplies
  | SetIncludePinned => IncludePinned
  end.

Definition asks_replies (s : tweets_setting) : bool :=
  match s with SetIncludeReplies => true | SetIncludePinned => false end.

Definition asks_pinned (s : tweets_setting) : bool :=
  match s with SetIncludePinned => true | SetIncludeReplies => false end.

Definition text_of_bool (b : bool) : string := if b then "true" else "false".

(** Bytes of a string. *)
Fixpoint count_byte (ch : ascii) (s : string) : nat :=
  match s with
  | EmptyString => 0
  | String c rest => (if (ch =? c)%char then 1 else 0) + count_byte ch rest
  end.

Fixpoint string_forallb (f : ascii -> bool) (s : string) : bool :=
  match s with
  | EmptyString => true
  | String c rest => f c && string_forallb f rest
  end.

(** The bytes [url.QueryEscape] never puts out: all but the unreserved
    ones, [+] and [%]. *)
Definition never_escaped_to (ch : ascii) : bool :=
  negb (unreserved ch) && negb (ch =? "+")%char && negb (ch =? "%")%char.

(** A parameter with its value emptied. *)
Definition without_value (p : param) : param :=
  {| key := key p; value := any_string "" |}.

(** A request as the engine makes it for a client: a GET with the two
    headers, the key and the host of the client. *)
Definition engine_request (c : Client) (req : Request) : Prop :=
  Method req = "GET"
  /\ exists o, Client_options c = Some o
               /\ Header req = [("X-RapidAPI-Key", apiKey c); ("X-RapidAPI-Host", host o)].

(** What a call did to the world: it sent some requests, took as many
    admissions and used as many answers, the first ones of the script. *)
Definition issued (c : Client) (w w' : world) : Prop :=
  exists (reqs : list Request) (used : list round_trip),
    sent w' = sent w ++ reqs
    /\ taken w' = taken w + length reqs
    /\ pending w = used ++ pending w'
    /\ length used = length reqs
    /\ Forall (engine_request c) reqs.

(** The errors [get] can return: the request could not be made, the
    transport failed, the status is outside [200, 299], the body could not
    be read. *)
Inductive get_failure : error -> Prop :=
| fails_create : forall e, get_failure (Errorf_w "create request" e)
| fails_send : forall e, get_failure (Errorf_w "send request" e)
| fails_status : forall code, (code < 200 \/ 299 < code)%Z -> get_failure (Errorf_status code)
| fails_read : forall e, get_failure (Errorf_w "read response body" e).

(** The errors of a call that fetches and decodes: a failure of [get]
    under the label of the call, or what the decoder said under
    "unmarshal response". *)
Definition call_failure {R : Type} {json_R : JSON R} (label : string) (e : error) : Prop :=
  (exists cause, get_failure cause /\ e = Errorf_w label cause)
  \/ (exists data target cause,
         json_Unmarshal (R := R) data target = inl cause
         /\ e = Errorf_w "unmarshal response" cause).

(** What a fetch that returned did, for the URL it builds under the host
    of the client: either the URL did not parse and nothing was done, or
    one request went out and one answer came back. *)
Definition fetch_report {std : Std} (c : Client) (url_for : string -> string)
           (w w' : world) (out : list byte * option error) : Prop :=
  exists o,
    Client_options c = Some o
    /\ ((exists e, http_NewRequest_err (url_for (host o)) = Some e
                   /\ out = ([], Some (Errorf_w "create request" e))
                   /\ w' = w)
        \/ (exists resp,
               http_NewRequest_err (url_for (host o)) = None
               /\ pending w = resp :: pending w'
               /\ out = respond resp
               /\ sent w' = sent w ++ [request_to (apiKey c) (host o) (url_for (host o))]
               /\ taken w' = S (taken w))).

(** The shape the hand-written loops share, for a response whose items
    and token are read by [items] and [token_of], the label of the call
    and the path of its continuation; each loop of [twitter154/api.go] is
    shown to be an instance of it before anything is proved through it. *)
Fixpoint token_loop {std : Std} {T R : Type} {zero_R : Zero R} {json_R : JSON R}
         (items : R -> list T) (token_of : R -> string)
         (label : string) (path : list string)
         (fuel : nat) (c : Client) (token : string)
         (continutationParams : list param) (acc : list T)
  : M (list T * option error) :=
  if (token =? "")%string then ret (acc, None)
  else
    match fuel with
    | O => fun _ => Starved
    | S fuel' =>
        '(data, err) <- Legacy.get c path continutationParams ;;
        match err with
        | Some err => ret ([], Some (Errorf_w label err))
        | None =>
            match json_Unmarshal data (zero : R) with
            | inl err => ret ([], Some (Errorf_w "unmarshal response" err))
            | inr r =>
                let acc := acc ++ items r in
                let token := token_of r in
                continutationParams <-
                  deref (Legacy.replace_last continutationParams
                           {| key := "continuation_token"; value := any_string token |}) ;;
                token_loop items token_of label path fuel' c token continutationParams acc
            end
        end
    end.

(** A path segment with a tab in it. *)
Definition sample_bad_segment : string := String (ascii_of_nat 9) "x".

(* ===================================================================== *)
(** * Basic facts *)
(* ===================================================================== *)

Lemma string_app_assoc (a b c : string) : ((a ++ b) ++ c = a ++ (b ++ c))%string.
Proof. induction a; simpl; [reflexivity | now rewrite IHa]. Qed.

Lemma string_app_nil_r (a : string) : (a ++ "" = a)%string.
Proof. induction a; simpl; [reflexivity | now rewrite IHa]. Qed.

Ltac splits := repeat match goal with |- _ /\ _ => split end.

(** Equations between concatenations of strings, up to bracketing. *)
Ltac string_assoc :=
  repeat (progress (simpl; rewrite ?string_app_assoc, ?string_app_nil_r));
  try reflexivity.

Lemma set_last_value_app (ps : list param) (p : param) (v : any) :
  set_last_value (ps ++ [p]) v = Some (ps ++ [{| key := key p; value := v |}]).
Proof.
  induction ps as [|q ps IH]; simpl; [reflexivity|].
  rewrite IH. destruct ps; reflexivity.
Qed.

Lemma replace_last_app (ps : list param) (p q : param) :
  Legacy.replace_last (ps ++ [p]) q = Some (ps ++ [q]).
Proof.
  unfold Legacy.replace_last. rewrite removelast_last.
  destruct ps; reflexivity.
Qed.

Lemma respond_delivers (resp : round_trip) (data : list byte) :
  delivers resp data -> respond resp = (data, None).
Proof.
  intros (code & Hcode & ->). simpl.
  destruct (Z.ltb_spec code 200); [lia|].
  destruct (Z.geb_spec code 300); [lia|]. reflexivity.
Qed.

Lemma respond_nil_error (resp : round_trip) (data : list byte) :
  respond resp = (data, None) -> delivers resp data.
Proof.
  destruct resp as [e | code body]; simpl; [discriminate|].
  destruct (Z.ltb_spec code 200); simpl; [discriminate|].
  destruct (Z.geb_spec code 300); simpl; [discriminate|].
  destruct body; [discriminate|].
  intros [= <-]. exists code. split; [lia | reflexivity].
Qed.

Lemma respond_error (resp : round_trip) (data : list byte) (e : error) :
  respond resp = (data, Some e) -> data = [] /\ made_by_Errorf e.
Proof.
  destruct resp as [e' | code body]; simpl.
  - intros [= <- <-]. split; [reflexivity | exact I].
  - destruct ((code <? 200) || (code >=? 300))%Z.
    + intros [= <- <-]. split; [reflexivity | exact I].
    + destruct body; [|discriminate].
      intros [= <- <-]. split; [reflexivity | exact I].
Qed.

Lemma made_by_Errorf_not_sentinel (e : error) :
  made_by_Errorf e -> e <> ErrNotImplemented.
Proof.
  destruct e; simpl; intros He;
    [contradiction | contradiction | discriminate | discriminate].
Qed.

(* ===================================================================== *)
(** * The request builder *)
(* ===================================================================== *)

Lemma range_params_later (params : list param) (i : nat) (uri : string) :
  range_params (S i) params uri = (uri ++ amp_pairs params)%string.
Proof.
  revert i uri. induction params as [|p rest IH]; intros i uri; simpl.
  - now rewrite string_app_nil_r.
  - rewrite IH. unfold pair_text. string_assoc.
Qed.

Lemma range_params_query (params : list param) (uri : string) :
  range_params 0 params uri = (uri ++ query_string params)%string.
Proof.
  destruct params as [|p rest]; simpl.
  - now rewrite string_app_nil_r.
  - rewrite range_params_later. unfold pair_text. string_assoc.
Qed.

(** The generic engine's [buildUrlWithParameters] returns the base URL of
    the path followed by the query string of the design document: the
    pairs in the order given, [?] before the first, [&] before the others,
    each value escaped on its own; no parameter gives the bare URL. *)
Theorem buildUrlWithParameters_query (c : Client) (path : list string)
        (params : list param) :
  buildUrlWithParameters c path params =
  option_map (fun base => (base ++ query_string params)%string) (buildUrl c path).
Proof.
  unfold buildUrlWithParameters.
  destruct (buildUrl c path) as [base|]; simpl; [|reflexivity].
  now rewrite range_params_query.
Qed.

Lemma buildUrlWithParameters_no_params (c : Client) (path : list string) :
  buildUrlWithParameters c path [] = buildUrl c path.
Proof.
  unfold buildUrlWithParameters. now destruct (buildUrl c path).
Qed.

Lemma amp_pairs_app (ps qs : list param) :
  amp_pairs (ps ++ qs) = (amp_pairs ps ++ amp_pairs qs)%string.
Proof.
  induction ps as [|p ps IH]; simpl; [reflexivity|].
  rewrite IH. unfold pair_text. string_assoc.
Qed.

(** One more parameter at the end adds one more pair at the end of the
    query string. *)
Lemma query_string_snoc (ps : list param) (p q : param) :
  query_string ((p :: ps) ++ [q]) =
  (query_string (p :: ps) ++ "&" ++ pair_text q)%string.
Proof.
  simpl. rewrite amp_pairs_app. unfold pair_text. string_assoc.
Qed.

Section ExecutorFacts.
Context {std : Std}.
Variables (apikey h : string) (rl : Limiter) (hc : http_Client_ptr).
Let c : Client := ready_client apikey h rl hc.

Lemma buildUrl_ready (p : list string) :
  buildUrl c p = Some ("https://" ++ h ++ "/" ++ path_Join p)%string.
Proof. reflexivity. Qed.

Lemma buildUrlWithParameters_ready (path : list string) (params : list param) :
  buildUrlWithParameters c path params = Some (url_of h path params).
Proof.
  unfold buildUrlWithParameters. rewrite buildUrl_ready, range_params_query.
  unfold url_of. f_equal. string_assoc.
Qed.

(** [do] on a client that is ready: one admission, one request with the
    two headers, one answer consumed. *)
Lemma do_ready (req : Request) (w : world) :
  do c req w =
  match pending w with
  | [] => Starved
  | resp :: rest => Ret (respond resp) (after_round_trip w (authorized apikey h req) rest)
  end.
Proof.
  unfold do, bind, deref, ret, Take, httpClient_Do. simpl.
  destruct (pending w) as [|resp rest]; [reflexivity|].
  destruct resp as [e | code body]; simpl; [reflexivity|].
  destruct ((code <? 200) || (code >=? 300))%Z; [reflexivity|].
  destruct body; reflexivity.
Qed.

Lemma get_ready (path : list string) (params : list param) (w : world) :
  get c path params w =
  match buildUrlWithParameters c path params with
  | None => Panic
  | Some url =>
      match http_NewRequest_err url with
      | Some err => Ret ([], Some (Errorf_w "create request" err)) w
      | None =>
          match pending w with
          | [] => Starved
          | resp :: rest =>
              Ret (respond resp) (after_round_trip w (request_to apikey h url) rest)
          end
      end
  end.
Proof.
  unfold get, bind, deref.
  destruct (buildUrlWithParameters c path params) as [url|]; [|reflexivity].
  unfold ret at 1.
  destruct (http_NewRequest_err url); [reflexivity|].
  apply (do_ready {| Method := "GET"; URL := url; Header := [] |}).
Qed.

Lemma legacy_get_ready (path : list string) (params : list param) (w : world) :
  Legacy.get c path params w =
  match Legacy.buildUrlWithParameters c path params with
  | None => Panic
  | Some url =>
      match http_NewRequest_err url with
      | Some err => Ret ([], Some (Errorf_w "create request" err)) w
      | None =>
          match pending w with
          | [] => Starved
          | resp :: rest =>
              Ret (respond resp) (after_round_trip w (request_to apikey h url) rest)
          end
      end
  end.
Proof.
  unfold Legacy.get, bind, deref.
  destruct (Legacy.buildUrlWithParameters c path params) as [url|]; [|reflexivity].
  unfold ret at 1.
  destruct (http_NewRequest_err url); [reflexivity|].
  apply (do_ready {| Method := "GET"; URL := url; Header := [] |}).
Qed.

End ExecutorFacts.

(** The standard library functions at some inputs. *)
Example path_Join_samples :
  path_Join ["user"; "tweets"] = "user/tweets"
  /\ path_Join (["user"; "tweets"] ++ ["continuation"]) = "user/tweets/continuation"
  /\ path_Join ["a"; ""; "b/../c"; "."] = "a/c"
  /\ path_Join [""; ""] = "".
Proof. splits; reflexivity. Qed.

Example url_QueryEscape_samples :
  url_QueryEscape "44196397" = "44196397"
  /\ url_QueryEscape "a b&c=d/e~f-_." = "a+b%26c%3Dd%2Fe~f-_."
  /\ url_QueryEscape (Sprint_v (any_int _pageLimit)) = "100".
Proof. splits; reflexivity. Qed.

(** The URL of the first fetch of [GetUserTweets] with [IncludePinned]. *)
Example buildUrlWithParameters_sample :
  buildUrlWithParameters sample_client ["user"; "tweets"]
                         (GetUserTweets_params "44196397" [IncludePinned])
  = Some "https://twitter154.p.rapidapi.com/user/tweets?user_id=44196397&limit=100&include_replies=false&include_pinned=true".
Proof. reflexivity. Qed.

(* ===================================================================== *)
(** * Configuration *)
(* ===================================================================== *)

(** The struct after every option ran, when none of them failed. *)
Lemma apply_options_app (pre post : list option_) (o : options) :
  apply_options (pre ++ post) o =
  match apply_options pre o with
  | inl err => inl err
  | inr o' => apply_options post o'
  end.
Proof.
  revert o. induction pre as [|opt pre IH]; intros o; simpl; [reflexivity|].
  destruct (opt o) as [o' [err|]]; [reflexivity | apply IH].
Qed.

(** C6.  [New] applies the options from left to right; at the first one
    that returns an error it returns at once: the zero client and that
    error wrapped as "bad option", whatever options follow.  A host that
    [http.NewRequest] rejects makes [WithHost] such an option. *)
Theorem New_aborts_at_failing_option (std : Std) (key : string)
        (pre post : list option_) (o : options) :
  apply_options pre options_zero = inr o ->
  (forall (bad : option_) (o_bad : options) (err : error),
      bad o = (o_bad, Some err) ->
      New key (pre ++ bad :: post) = (Client_zero, Some (Errorf_w "bad option" err)))
  /\ (forall (h : string) (err : error),
         http_NewRequest_err ("https://" ++ h) = Some err ->
         New key (pre ++ WithHost h :: post) =
         (Client_zero, Some (Errorf_w "bad option" (Errorf_w "invalid host" err))))
  /\ (forall (next : option_) (o' : options),
         next o = (o', None) ->
         apply_options (pre ++ next :: post) options_zero = apply_options post o').
Proof.
  intros Hpre.
  assert (Hbad : forall bad o_bad err, bad o = (o_bad, Some err) ->
            New key (pre ++ bad :: post) = (Client_zero, Some (Errorf_w "bad option" err))).
  { intros bad o_bad err Hb. unfold New.
    rewrite apply_options_app, Hpre. simpl. now rewrite Hb. }
  split; [exact Hbad | split].
  - intros h err Hh. apply (Hbad _ o). unfold WithHost. now rewrite Hh.
  - intros next o' Hn. rewrite apply_options_app, Hpre. simpl. now rewrite Hn.
Qed.

(** C7.  A field is unset when it holds its zero value, which is what
    [New] tests: the empty host, the nil limiter, the nil HTTP client.
    When every option succeeded and left the struct [o], [New] returns a
    client whose host is the default host if [o]'s host is unset and [o]'s
    host otherwise, whose limiter is an unlimited one if [o]'s is unset
    and [o]'s otherwise, and whose HTTP client is [http.DefaultClient] if
    [o]'s is unset and [o]'s otherwise. *)
Theorem New_defaults_only_for_unset (key : string)
        (opts : list option_) (o : options) :
  apply_options opts options_zero = inr o ->
  exists o',
    New key opts = ({| apiKey := key; Client_options := Some o' |}, None)
    /\ host o' = (if (host o =? "")%string then "twitter154.p.rapidapi.com" else host o)
    /\ rateLimit o' = Some (match rateLimit o with
                            | Some rl => rl
                            | None => ratelimit_NewUnlimited
                            end)
    /\ httpClient o' = Some (match httpClient o with
                             | Some hc => hc
                             | None => http_DefaultClient
                             end).
Proof.
  intros Hopts. exists (fill_defaults o). unfold New. rewrite Hopts.
  split; [reflexivity|].
  unfold fill_defaults.
  destruct o as [ho [rl|] [hc|]]; simpl; destruct (ho =? "")%string; simpl; auto.
Qed.

(** The three options with values that are not zero values: each value is
    in the client, no default is. *)
Lemma New_keeps_what_options_set (std : Std) (key h : string) (rl : Limiter)
      (hc : http_Client) :
  h <> "" ->
  http_NewRequest_err ("https://" ++ h) = None ->
  New key [WithHost h; WithRateLimit rl; WithHttpClient hc] =
  ({| apiKey := key;
      Client_options := Some {| host := h; rateLimit := Some rl;
                                httpClient := Some (addr_of hc) |} |}, None).
Proof.
  intros Hh Hparse. unfold New. simpl. unfold WithHost. rewrite Hparse.
  unfold fill_defaults. simpl. apply String.eqb_neq in Hh. now rewrite Hh.
Qed.

(** The empty host is the unset host: where [http.NewRequest] accepts the
    URL [https://], [WithHost ""] succeeds, leaves the host unset, and
    [New] gives the default host. *)
Lemma New_WithHost_empty (std : Std) (key : string) :
  http_NewRequest_err "https://" = None ->
  New key [WithHost ""] = New key [].
Proof.
  intros Hparse. unfold New. simpl. unfold WithHost. simpl. now rewrite Hparse.
Qed.

(** C10.  With no option, [New] cannot fail: it returns the nil error and
    the client with the key, the default host, an unlimited limiter and
    [http.DefaultClient]. *)
Theorem New_no_options (key : string) :
  New key [] =
  ({| apiKey := key;
      Client_options := Some {| host := "twitter154.p.rapidapi.com";
                                rateLimit := Some ratelimit_NewUnlimited;
                                httpClient := Some http_DefaultClient |} |},
   None).
Proof. reflexivity. Qed.

(** A client that [New] returns without an error is ready. *)
Lemma New_ready (key : string) (opts : list option_) (c : Client) :
  New key opts = (c, None) ->
  exists h rl hc, c = ready_client key h rl hc.
Proof.
  unfold New. destruct (apply_options opts options_zero) as [err|o]; [discriminate|].
  intros [= <-]. unfold fill_defaults, ready_client.
  destruct o as [ho [rl|] [hc|]]; simpl; destruct (ho =? "")%string; simpl; eauto.
Qed.

(* ===================================================================== *)
(** * The generic paginator *)
(* ===================================================================== *)

Lemma last_cons {A : Type} (l : list A) :
  forall a d : A, List.last (a :: l) d = List.last l a.
Proof.
  induction l as [|b l IH]; intros a d; [reflexivity|].
  change (List.last (a :: b :: l) d) with (List.last (b :: l) d).
  rewrite (IH b d). symmetry. apply (IH b a).
Qed.


Section PaginatorFacts.
Context {std : Std} {T R : Type}.
Context {zero_R : Zero R} {json_R : JSON R} {paginated_R : resultPaginated T R}.
Variables (apikey h : string) (rl : Limiter) (hc : http_Client_ptr).
Variables (path : list string) (params : list param).
Let c : Client := ready_client apikey h rl hc.

(** One iteration of the loop that fetches and decodes a page. *)
Lemma paginate_step (fuel : nat) (r r' : R) (acc : list T) (w : world)
      (resp : round_trip) (rest : list round_trip) (data : list byte) :
  Result r <> [] ->
  http_NewRequest_err (continuation_url h path params (Token r)) = None ->
  pending w = resp :: rest ->
  delivers resp data ->
  json_Unmarshal data r = inr r' ->
  paginate (S fuel) c (path ++ ["continuation"])
           (params ++ [continuation_param (Token r)]) r acc w =
  paginate fuel c (path ++ ["continuation"])
           (params ++ [continuation_param (Token r')]) r' (acc ++ Result r)
           (after_round_trip w (continuation_request apikey h path params r) rest).
Proof.
  intros Hne Hurl Hpending Hresp Hjson. cbn [paginate].
  destruct (Result r) as [|t ts] eqn:Hres; [congruence|].
  unfold bind at 1. unfold c. rewrite get_ready, buildUrlWithParameters_ready.
  fold (continuation_url h path params (Token r)). rewrite Hurl, Hpending.
  rewrite (respond_delivers _ _ Hresp), Hjson.
  unfold bind, deref. rewrite set_last_value_app. reflexivity.
Qed.

(** The loop on a script that holds the pages up to the first empty
    one. *)
Lemma paginate_run (front : list R) :
  forall (r last : R) (nexts : list R) (answers rest : list round_trip)
         (log : list Request) (n fuel : nat) (acc : list T),
    r :: nexts = front ++ [last] ->
    fetched r answers nexts ->
    Forall (fun p => Result p <> []) front ->
    Result last = [] ->
    Forall (fun p => http_NewRequest_err (continuation_url h path params (Token p))
                     = None) front ->
    length answers < fuel ->
    paginate fuel c (path ++ ["continuation"])
             (params ++ [continuation_param (Token r)]) r acc
             {| pending := answers ++ rest; sent := log; taken := n |} =
    Ret (acc ++ concat (map Result front), None)
        {| pending := rest;
           sent := log ++ map (continuation_request apikey h path params) front;
           taken := n + length front |}.
Proof.
  induction front as [|f front IH];
    intros r last nexts answers rest log n fuel acc Hseq Hfetched Hne Hlast Hurls Hfuel.
  - simpl in Hseq. injection Hseq as -> ->. inversion Hfetched; subst.
    destruct fuel; cbn [paginate]; rewrite Hlast; unfold ret; simpl;
      rewrite !app_nil_r, Nat.add_0_r; reflexivity.
  - simpl in Hseq. injection Hseq as Hr Hn. subst f nexts.
    inversion Hfetched as [|r0 resp data r' answers' pages' Hresp Hjson Hrest Hr0 Ha Hp];
      [destruct front; discriminate|]. subst r0 answers.
    destruct fuel as [|fuel]; [simpl in Hfuel; lia|].
    inversion Hne; subst. inversion Hurls; subst.
    rewrite (paginate_step fuel r r' acc _ resp (answers' ++ rest) data);
      auto.
    unfold after_round_trip. simpl pending. simpl sent. simpl taken.
    rewrite (IH r' last pages' answers' rest _ (S n) fuel (acc ++ Result r));
      auto; [|simpl in Hfuel; lia].
    simpl. rewrite <- !app_assoc. simpl.
    do 2 f_equal. f_equal. lia.
Qed.

(** The whole call on such a script. *)
Lemma getResultPaginated_run (pages : list R) (last : R)
      (answers rest : list round_trip) (log : list Request) (n : nat) :
  fetched zero answers (pages ++ [last]) ->
  Forall (fun p => Result p <> []) pages ->
  Result last = [] ->
  http_NewRequest_err (url_of h path params) = None ->
  Forall (fun p => http_NewRequest_err (continuation_url h path params (Token p))
                   = None) pages ->
  getResultPaginated c path params
                     {| pending := answers ++ rest; sent := log; taken := n |} =
  Ret (concat (map Result pages), None)
      {| pending := rest;
         sent := log ++ request_to apikey h (url_of h path params)
                     :: map (continuation_request apikey h path params) pages;
         taken := n + S (length pages) |}.
Proof.
  intros Hfetched Hne Hlast Hurl Hurls.
  inversion Hfetched as [|r0 resp data r1 answers' nexts Hresp Hjson Hrest Hr Ha Hp];
    [destruct pages; discriminate|]. subst.
  unfold getResultPaginated. unfold bind at 1. unfold c at 1.
  rewrite get_ready, buildUrlWithParameters_ready, Hurl. cbn [pending app].
  rewrite (respond_delivers _ _ Hresp), Hjson.
  unfold after_round_trip. cbn [pending sent taken].
  rewrite (paginate_run pages r1 last nexts answers' rest _ (S n) _ []); auto.
  - simpl. rewrite <- app_assoc. simpl. do 2 f_equal. lia.
  - simpl. rewrite length_app. lia.
Qed.

(** The loop on a script whose answer after some non-empty pages fails:
    what was accumulated is dropped. *)
Lemma paginate_fails (nexts : list R) :
  forall (r : R) (answers rest : list round_trip) (bad : round_trip) (e : error)
         (log : list Request) (n fuel : nat) (acc : list T),
    fetched r answers nexts ->
    Forall (fun p => Result p <> []) (r :: nexts) ->
    Forall (fun p => http_NewRequest_err (continuation_url h path params (Token p)) = None)
           (r :: nexts) ->
    fails_after (List.last nexts r) bad e ->
    length answers < fuel ->
    paginate fuel c (path ++ ["continuation"])
             (params ++ [continuation_param (Token r)]) r acc
             {| pending := answers ++ bad :: rest; sent := log; taken := n |} =
    Ret ([], Some e)
        {| pending := rest;
           sent := log ++ map (continuation_request apikey h path params) (r :: nexts);
           taken := n + S (length nexts) |}.
Proof.
  induction nexts as [|p nexts IH];
    intros r answers rest bad e log n fuel acc Hfetched Hne Hurls Hbad Hfuel.
  - inversion Hfetched; subst. inversion Hne as [|? ? Hr _]; subst.
    inversion Hurls as [|? ? Hu _]; subst.
    destruct fuel as [|fuel]; [simpl in Hfuel; lia|].
    cbn [paginate app]. destruct (Result r) as [|t ts] eqn:Hres; [congruence|].
    unfold bind at 1. unfold c.
    rewrite get_ready, buildUrlWithParameters_ready.
    fold (continuation_url h path params (Token r)). rewrite Hu. cbn [pending].
    simpl in Hbad.
    destruct Hbad as [(d & e0 & Hresp & ->) | (data & e0 & Hresp & Hjson & ->)].
    + rewrite Hresp. unfold ret, after_round_trip. simpl.
      do 2 f_equal. lia.
    + rewrite (respond_delivers _ _ Hresp), Hjson.
      unfold ret, after_round_trip. simpl. do 2 f_equal. lia.
  - inversion Hfetched as [|r0 resp data r' answers' pages' Hresp Hjson Hrest]; subst.
    inversion Hne as [|? ? Hr Hne']; subst.
    inversion Hurls as [|? ? Hu Hurls']; subst.
    destruct fuel as [|fuel]; [simpl in Hfuel; lia|].
    cbn [app].
    rewrite (paginate_step fuel r p acc _ resp (answers' ++ bad :: rest) data); auto.
    unfold after_round_trip. cbn [pending sent taken].
    rewrite (IH p answers' rest bad e _ (S n) fuel (acc ++ Result r)); auto.
    + cbn [map length]. rewrite <- app_assoc. simpl. do 2 f_equal. lia.
    + rewrite <- (last_cons nexts p r). exact Hbad.
    + simpl in Hfuel. lia.
Qed.

(** The whole call on such a script. *)
Lemma getResultPaginated_fails (pages : list R) (answers rest : list round_trip)
      (bad : round_trip) (e : error) (log : list Request) (n : nat) :
  fetched zero answers pages ->
  Forall (fun p => Result p <> []) pages ->
  http_NewRequest_err (url_of h path params) = None ->
  Forall (fun p => http_NewRequest_err (continuation_url h path params (Token p))
                   = None) pages ->
  fails_after (List.last pages zero) bad e ->
  getResultPaginated c path params
                     {| pending := answers ++ bad :: rest; sent := log; taken := n |} =
  Ret ([], Some e)
      {| pending := rest;
         sent := log ++ request_to apikey h (url_of h path params)
                     :: map (continuation_request apikey h path params) pages;
         taken := n + S (length pages) |}.
Proof.
  intros Hfetched Hne Hurl Hurls Hbad.
  unfold getResultPaginated. unfold bind at 1. unfold c at 1.
  rewrite get_ready, buildUrlWithParameters_ready, Hurl.
  inversion Hfetched as [|r0 resp data r1 answers' nexts Hresp Hjson Hrest]; subst.
  - cbn [pending app]. simpl in Hbad.
    destruct Hbad as [(d & e0 & Hresp & ->) | (data & e0 & Hresp & Hjson & ->)].
    + rewrite Hresp. unfold ret, after_round_trip. simpl. do 2 f_equal. lia.
    + rewrite (respond_delivers _ _ Hresp), Hjson.
      unfold ret, after_round_trip. simpl. do 2 f_equal. lia.
  - cbn [pending app].
    rewrite (respond_delivers _ _ Hresp), Hjson.
    unfold after_round_trip. cbn [pending sent taken].
    rewrite (paginate_fails nexts r1 answers' rest bad e _ (S n) _ []); auto.
    + cbn [map length]. rewrite <- app_assoc. simpl. do 2 f_equal. lia.
    + rewrite <- (last_cons nexts r1 zero). exact Hbad.
    + simpl. rewrite length_app. simpl. lia.
Qed.

Lemma loop_report_stop (r : R) (acc : list T) (w : world) :
  Result r = [] -> loop_report apikey h path params r acc w w acc None.
Proof.
  intros Hres. exists [], [], 0. splits; simpl; auto using fetched_nil.
  - now exists (pending w).
  - now rewrite app_nil_r.
  - exists [], r. splits; auto. simpl. now rewrite app_nil_r.
Qed.

Lemma loop_report_unsent (r : R) (acc : list T) (w : world) (e : error) :
  made_by_Errorf e -> loop_report apikey h path params r acc w w [] (Some e).
Proof.
  intros He. exists [], [], 0. splits; simpl; auto using fetched_nil.
  - now exists (pending w).
  - now rewrite app_nil_r.
Qed.

Lemma loop_report_failed (r : R) (acc : list T) (w : world) (e : error)
      (resp : round_trip) (rest : list round_trip) :
  pending w = resp :: rest ->
  made_by_Errorf e ->
  loop_report apikey h path params r acc w
              (after_round_trip w (continuation_request apikey h path params r) rest)
              [] (Some e).
Proof.
  intros Hpending He. exists [], [], 1. splits; simpl; auto using fetched_nil.
  - now exists (pending w).
  - rewrite Hpending. reflexivity.
  - lia.
Qed.

Lemma paginate_inv (fuel : nat) :
  forall (r : R) (acc : list T) (w w' : world) (res : list T) (err : option error),
    paginate fuel c (path ++ ["continuation"])
             (params ++ [continuation_param (Token r)]) r acc w = Ret (res, err) w' ->
    loop_report apikey h path params r acc w w' res err.
Proof.
  induction fuel as [|fuel IH]; intros r acc w w' res err Hrun; cbn [paginate] in Hrun.
  - destruct (Result r) as [|t ts] eqn:Hres; [|discriminate].
    injection Hrun as <- <- <-. now apply loop_report_stop.
  - destruct (Result r) as [|t ts] eqn:Hres.
    { injection Hrun as <- <- <-. now apply loop_report_stop. }
    unfold bind at 1 in Hrun. unfold c in Hrun.
    rewrite get_ready, buildUrlWithParameters_ready in Hrun.
    fold (continuation_url h path params (Token r)) in Hrun. fold c in Hrun.
    destruct (http_NewRequest_err (continuation_url h path params (Token r))) as [e0|].
    { injection Hrun as <- <- <-. now apply loop_report_unsent. }
    destruct (pending w) as [|resp rest] eqn:Hpending; [discriminate|].
    fold (continuation_request apikey h path params r) in Hrun.
    destruct (respond resp) as [data [e0|]] eqn:Hresp.
    { injection Hrun as <- <- <-. now apply (loop_report_failed r acc w _ resp). }
    apply respond_nil_error in Hresp.
    destruct (json_Unmarshal data r) as [e0|r'] eqn:Hjson.
    { injection Hrun as <- <- <-. now apply (loop_report_failed r acc w _ resp). }
    unfold bind, deref in Hrun. rewrite set_last_value_app in Hrun.
    unfold ret in Hrun. cbn [key continuation_param] in Hrun.
    apply IH in Hrun.
    destruct Hrun
      as (answers & nexts & m & Hf & (tl & Htl) & Hsent & Hm & Hlen & Htaken & Herr).
    unfold after_round_trip in *. cbn [pending sent taken] in *.
    exists (resp :: answers), (r' :: nexts), (S m). splits.
    + eapply fetched_cons; eauto.
    + exists tl. rewrite Hpending. simpl. now rewrite Htl.
    + rewrite Hsent, <- app_assoc. reflexivity.
    + simpl. simpl in Hm. lia.
    + rewrite Hpending. simpl. lia.
    + lia.
    + destruct err as [e|]; [exact Herr|].
      destruct Herr as (front & last & Hseq & Hpend & Hfront & Hlast & Hres').
      exists (r :: front), last. splits; auto.
      * simpl. now rewrite Hseq.
      * rewrite Hpending. simpl. now rewrite Hpend.
      * constructor; [rewrite Hres; discriminate | exact Hfront].
      * rewrite Hres', <- Hres, <- app_assoc. reflexivity.
Qed.

Lemma call_report_failed (w : world) (e : error)
      (resp : round_trip) (rest : list round_trip) :
  pending w = resp :: rest ->
  made_by_Errorf e ->
  call_report apikey h path params w
              (after_round_trip w (request_to apikey h (url_of h path params)) rest)
              [] (Some e).
Proof.
  intros Hpending He. exists [], [], 1. splits; simpl; auto using fetched_nil.
  - now exists (pending w).
  - rewrite Hpending. reflexivity.
  - lia.
Qed.

Lemma getResultPaginated_inv (w w' : world) (res : list T) (err : option error) :
  getResultPaginated c path params w = Ret (res, err) w' ->
  call_report apikey h path params w w' res err.
Proof.
  unfold getResultPaginated. unfold bind at 1. unfold c at 1.
  rewrite get_ready, buildUrlWithParameters_ready. fold c.
  destruct (http_NewRequest_err (url_of h path params)) as [e0|].
  { intros [= <- <- <-]. exists [], [], 0. splits; simpl; auto using fetched_nil.
    - now exists (pending w).
    - now rewrite app_nil_r. }
  destruct (pending w) as [|resp rest] eqn:Hpending; [discriminate|].
  destruct (respond resp) as [data [e0|]] eqn:Hresp.
  { intros [= <- <- <-]. now apply (call_report_failed w _ resp). }
  apply respond_nil_error in Hresp.
  destruct (json_Unmarshal data zero) as [e0|r1] eqn:Hjson.
  { intros [= <- <- <-]. now apply (call_report_failed w _ resp). }
  intros Hrun. apply paginate_inv in Hrun.
  destruct Hrun
    as (answers & nexts & m & Hf & (tl & Htl) & Hsent & Hm & Hlen & Htaken & Herr).
  unfold after_round_trip in *. cbn [pending sent taken] in *.
  exists (resp :: answers), (r1 :: nexts), (S m). splits.
  - eapply fetched_cons; eauto.
  - exists tl. rewrite Hpending. simpl. now rewrite Htl.
  - rewrite Hsent, <- app_assoc. reflexivity.
  - simpl. simpl in Hm. lia.
  - rewrite Hpending. simpl. lia.
  - lia.
  - destruct err as [e|]; [exact Herr|].
    destruct Herr as (front & last & Hseq & Hpend & Hfront & Hlast & Hres').
    exists front, last. splits; auto. rewrite Hpending. simpl. now rewrite Hpend.
Qed.

(** X20.  The requests of [getResultPaginated] in terms of the one
    response value [r] every body is unmarshalled into.  The first
    request goes to the URL of the path and the parameters given; every
    later one goes to the URL of the path with one more segment,
    "continuation", and the parameters with one more pair,
    [continuation_token], whose value is the [Token()] the value [r]
    holds after the body of the answer just before was unmarshalled into
    it (the token of that body where it sets the field, what an earlier
    body left there where it does not).  First part: on a script whose
    bodies take [r] through the states [pages], not empty, and then to
    an empty one, the call returns and its requests are exactly these.
    Second part: whenever the call returns, the requests it issued are
    the first [m] of that list, for the states [pages] the first answers
    of the script take [r] through, and each request used one answer. *)
Theorem getResultPaginated_requests :
  (forall (pages : list R) (last : R) (answers rest : list round_trip)
          (log : list Request) (n : nat),
      fetched zero answers (pages ++ [last]) ->
      Forall (fun p => Result p <> []) pages ->
      Result last = [] ->
      http_NewRequest_err (url_of h path params) = None ->
      Forall (fun p => http_NewRequest_err
                         (continuation_url h path params (Token p)) = None)
             pages ->
      exists res w',
        getResultPaginated c path params
                           {| pending := answers ++ rest; sent := log; taken := n |}
        = Ret (res, None) w'
        /\ sent w' =
           log ++ request_to apikey h (url_of h path params)
               :: map (continuation_request apikey h path params) pages)
  /\ (forall (w w' : world) (out : list T * option error),
         getResultPaginated c path params w = Ret out w' ->
         exists (answers : list round_trip) (pages : list R) (m : nat),
           fetched zero answers pages
           /\ (exists tl, pending w = answers ++ tl)
           /\ length (pending w) = m + length (pending w')
           /\ sent w' =
              sent w ++
              firstn m
                (request_to apikey h (url_of h path params)
                 :: map (continuation_request apikey h path params) pages)).
Proof.
  split.
  - intros pages last answers rest log n Hf Hne Hlast Hurl Hurls.
    eexists _, _. split.
    + apply (getResultPaginated_run pages last); eauto.
    + reflexivity.
  - intros w w' [res err] Hrun. apply getResultPaginated_inv in Hrun.
    destruct Hrun as (answers & pages & m & Hf & Htl & Hsent & _ & Hlen & _).
    exists answers, pages, m. splits; auto.
Qed.

(** C4.  A paginated call hands back no partial list.  First part: when
    the answer after some non-empty pages fails (the round trip fails or
    its body does not unmarshal), the call returns the nil list and an
    error.  Second part: whenever the call returns, either the error is
    not nil and the list is nil, or the error is nil, every answer the
    call used delivered a page, the pages ran up to the first empty one
    and the list holds the items of all of them, in order. *)
Theorem getResultPaginated_all_or_nothing :
  (forall (pages : list R) (answers rest : list round_trip) (bad : round_trip)
          (e : error) (log : list Request) (n : nat),
      fetched zero answers pages ->
      Forall (fun p => Result p <> []) pages ->
      http_NewRequest_err (url_of h path params) = None ->
      Forall (fun p => http_NewRequest_err
                         (continuation_url h path params (Token p)) = None)
             pages ->
      fails_after (List.last pages zero) bad e ->
      exists w',
        getResultPaginated c path params
                           {| pending := answers ++ bad :: rest; sent := log; taken := n |}
        = Ret ([], Some e) w')
  /\ (forall (w w' : world) (res : list T) (err : option error),
         getResultPaginated c path params w = Ret (res, err) w' ->
         match err with
         | Some _ => res = []
         | None =>
             exists (answers : list round_trip) (pages : list R) (last : R),
             pending w = answers ++ pending w'
             /\ fetched zero answers (pages ++ [last])
             /\ Forall (fun p => Result p <> []) pages
             /\ Result last = []
             /\ res = concat (map Result pages)
         end).
Proof.
  split.
  - intros pages answers rest bad e log n Hf Hne Hurl Hurls Hbad.
    eexists. apply getResultPaginated_fails; eauto.
  - intros w w' res err Hrun. apply getResultPaginated_inv in Hrun.
    destruct Hrun as (answers & pages & m & Hf & _ & _ & _ & _ & _ & Herr).
    destruct err as [e|]; [tauto|].
    destruct Herr as (front & last & -> & Hpend & Hfront & Hlast & ->).
    exists answers, front, last. splits; auto.
Qed.

End PaginatorFacts.

(* ===================================================================== *)
(** * The executor *)
(* ===================================================================== *)

(** C5, as the code has it.  When the transport call succeeded with status
    [code], [do] returns the "status code" error carrying [code], and no
    body, exactly when [code] is outside [200, 299]; inside the range it
    returns the whole body and the nil error if the body was read, and the
    "read response body" error, and no body, if reading it failed.  In
    each case one admission was taken and the request, with the two
    headers, was sent. *)
Theorem do_status_and_body (apikey h : string) (rl : Limiter) (hc : http_Client_ptr)
        (req : Request) (w : world) (code : Z) (body : body_read)
        (rest : list round_trip) :
  pending w = Do_resp code body :: rest ->
  let c := ready_client apikey h rl hc in
  let w' := after_round_trip w (authorized apikey h req) rest in
  (do c req w = Ret ([], Some (Errorf_status code)) w' <-> (code < 200 \/ 299 < code)%Z)
  /\ (forall data, (200 <= code <= 299)%Z -> body = ReadAll_ok data ->
                   do c req w = Ret (data, None) w')
  /\ (forall e, (200 <= code <= 299)%Z -> body = ReadAll_err e ->
                do c req w = Ret ([], Some (Errorf_w "read response body" e)) w').
Proof.
  intros Hpending c w'. unfold c. rewrite do_ready, Hpending. fold w'. simpl.
  destruct (Z.ltb_spec code 200) as [Hlt|Hge]; simpl.
  - splits; [split; [lia | reflexivity] | intros; lia | intros; lia].
  - destruct (Z.geb_spec code 300) as [Hhi|Hlo]; simpl.
    + splits; [split; [lia | reflexivity] | intros; lia | intros; lia].
    + splits.
      * split; [|lia]. destruct body; discriminate.
      * intros data _ ->. reflexivity.
      * intros e _ ->. reflexivity.
Qed.

(** Whatever the client, an error that [do] or [get] returns was made by
    [fmt.Errorf] and comes with no body. *)
Lemma do_error (c : Client) (req : Request) (w w' : world)
      (data : list byte) (e : error) :
  do c req w = Ret (data, Some e) w' -> data = [] /\ made_by_Errorf e.
Proof.
  unfold do, bind, deref, ret, panic, Take, httpClient_Do.
  destruct (Client_options c) as [o|]; [|discriminate].
  destruct (rateLimit o); [|discriminate].
  destruct (httpClient o); [|discriminate]. simpl.
  destruct (pending w) as [|resp rest]; [discriminate|].
  destruct resp as [e0 | code body].
  - intros [= <- <- <-]. split; [reflexivity | exact I].
  - destruct ((code <? 200) || (code >=? 300))%Z.
    + intros [= <- <- <-]. split; [reflexivity | exact I].
    + destruct body; [|discriminate].
      intros [= <- <- <-]. split; [reflexivity | exact I].
Qed.

Lemma get_error (std : Std) (c : Client) (path : list string) (params : list param)
      (w w' : world) (data : list byte) (e : error) :
  get c path params w = Ret (data, Some e) w' -> data = [] /\ made_by_Errorf e.
Proof.
  unfold get, bind, deref, panic.
  destruct (buildUrlWithParameters c path params) as [url|]; [|discriminate].
  unfold ret at 1.
  destruct (http_NewRequest_err url).
  - intros [= <- <- <-]. split; [reflexivity | exact I].
  - apply do_error.
Qed.

(** A fetch that returns the nil error used one answer of the script. *)
Lemma get_consumes (std : Std) (c : Client) (path : list string) (params : list param)
      (w w' : world) (data : list byte) :
  get c path params w = Ret (data, None) w' ->
  exists resp, pending w = resp :: pending w' /\ delivers resp data.
Proof.
  unfold get, bind, deref, panic.
  destruct (buildUrlWithParameters c path params) as [url|]; [|discriminate].
  unfold ret at 1.
  destruct (http_NewRequest_err url); [discriminate|].
  unfold do, bind, deref, ret, panic, Take, httpClient_Do.
  destruct (Client_options c) as [o|]; [|discriminate].
  destruct (rateLimit o); [|discriminate].
  destruct (httpClient o); [|discriminate]. simpl.
  destruct (pending w) as [|resp rest]; [discriminate|].
  intros Hrun. exists resp.
  assert (Hresp : respond resp = (data, None) /\ pending w' = rest).
  { destruct resp as [e0 | code body]; simpl; [discriminate|].
    destruct ((code <? 200) || (code >=? 300))%Z; [discriminate|].
    destruct body; [discriminate|]. injection Hrun as <- <-. auto. }
  destruct Hresp as [Hresp ->]. split; [reflexivity|].
  now apply respond_nil_error.
Qed.

Section EngineErrors.
Context {std : Std} {T R : Type}.
Context {zero_R : Zero R} {json_R : JSON R}.

Lemma getResult_error {zero_T : Zero T} {result_R : result T R}
      (c : Client) (path : list string) (params : list param)
      (w w' : world) (v : T) (e : error) :
  getResult c path params w = Ret (v, Some e) w' -> v = zero /\ made_by_Errorf e.
Proof.
  unfold getResult, bind.
  destruct (get c path params w) as [[data [e0|]] w1| |]; try discriminate.
  - intros [= <- <- <-]. split; [reflexivity | exact I].
  - destruct (json_Unmarshal data zero); [|discriminate].
    intros [= <- <- <-]. split; [reflexivity | exact I].
Qed.

Context {paginated_R : resultPaginated T R}.

Lemma paginate_error (fuel : nat) :
  forall (c : Client) (path : list string) (params : list param) (r : R)
         (acc : list T) (w w' : world) (res : list T) (e : error),
    paginate fuel c path params r acc w = Ret (res, Some e) w' ->
    res = [] /\ made_by_Errorf e.
Proof.
  induction fuel as [|fuel IH]; intros c path params r acc w w' res e;
    cbn [paginate]; destruct (Result r); try discriminate.
  unfold bind at 1.
  destruct (get c path params w) as [[data [e0|]] w1| |]; try discriminate.
  - intros [= <- <- <-]. split; [reflexivity | exact I].
  - destruct (json_Unmarshal data r) as [e0|r'].
    + intros [= <- <- <-]. split; [reflexivity | exact I].
    + unfold bind, deref.
      destruct (set_last_value params (any_string (Token r'))); [|discriminate].
      apply IH.
Qed.

Lemma getResultPaginated_error (c : Client) (path : list string)
      (params : list param) (w w' : world) (res : list T) (e : error) :
  getResultPaginated c path params w = Ret (res, Some e) w' ->
  res = [] /\ made_by_Errorf e.
Proof.
  unfold getResultPaginated, bind.
  destruct (get c path params w) as [[data [e0|]] w1| |]; try discriminate.
  - intros [= <- <- <-]. split; [reflexivity | exact I].
  - destruct (json_Unmarshal data zero) as [e0|r].
    + intros [= <- <- <-]. split; [reflexivity | exact I].
    + apply paginate_error.
Qed.

(** The bound of the loop is never what stops it: above the number of
    answers left, every bound gives the same run. *)
Lemma paginate_fuel (fuel : nat) :
  forall (fuel' : nat) (c : Client) (path : list string) (params : list param)
         (r : R) (acc : list T) (w : world),
    length (pending w) < fuel -> length (pending w) < fuel' ->
    paginate fuel c path params r acc w = paginate fuel' c path params r acc w.
Proof.
  induction fuel as [|fuel IH]; intros fuel' c path params r acc w Hf Hf'; [lia|].
  destruct fuel' as [|fuel']; [lia|].
  cbn [paginate]. destruct (Result r); [reflexivity|].
  unfold bind at 1 3.
  destruct (get c path params w) as [[data [e0|]] w1| |] eqn:Hget; try reflexivity.
  destruct (json_Unmarshal data r) as [e0|r']; [reflexivity|].
  unfold bind, deref.
  destruct (set_last_value params (any_string (Token r'))); [|reflexivity].
  unfold ret. apply get_consumes in Hget. destruct Hget as (resp & Hpending & _).
  rewrite Hpending in Hf, Hf'. simpl in Hf, Hf'. apply IH; lia.
Qed.

End EngineErrors.

(* ===================================================================== *)
(** * The hand-written loop of [GetUserTweets] and the generic paginator *)
(* ===================================================================== *)

Section LegacyFacts.
Context {std : Std} {Tweet : Type}.
Context {json_tweets : JSON (getUserTweetsResponse Tweet)}.
Variables (apikey h : string) (rl : Limiter) (hc : http_Client_ptr).
Variables (userId : string) (opts : list getUserTweetsOption).
Let c : Client := ready_client apikey h rl hc.
Let params : list param := GetUserTweets_params userId opts.
Local Abbreviation page := (getUserTweetsResponse Tweet).

Lemma legacy_buildUrlWithParameters_ready (path : list string) (ps : list param) :
  Legacy.buildUrlWithParameters c path ps = Some (legacy_url_of h path ps).
Proof. reflexivity. Qed.

Lemma legacy_loop_stop (fuel : nat) (ps : list param) (tweets : list Tweet) (w : world) :
  Legacy.GetUserTweets_loop fuel c "" ps tweets w = Ret (tweets, None) w.
Proof. destruct fuel; reflexivity. Qed.

Lemma legacy_loop_step (fuel : nat) (r r' : page) (tweets : list Tweet) (w : world)
      (resp : round_trip) (rest : list round_trip) (data : list byte) :
  tweets_ContinuationToken r <> "" ->
  http_NewRequest_err
    (legacy_continuation_url h ["user"; "tweets"] params (tweets_ContinuationToken r))
  = None ->
  pending w = resp :: rest ->
  delivers resp data ->
  json_Unmarshal data (zero : page) = inr r' ->
  Legacy.GetUserTweets_loop (S fuel) c (tweets_ContinuationToken r)
    (params ++ [continuation_param (tweets_ContinuationToken r)]) tweets w =
  Legacy.GetUserTweets_loop fuel c (tweets_ContinuationToken r')
    (params ++ [continuation_param (tweets_ContinuationToken r')])
    (tweets ++ tweets_Results r')
    (after_round_trip
       w (legacy_continuation_request apikey h ["user"; "tweets"] params r) rest).
Proof.
  intros Htok Hurl Hpending Hresp Hjson. cbn [Legacy.GetUserTweets_loop].
  apply String.eqb_neq in Htok. rewrite Htok.
  unfold bind at 1. unfold c.
  rewrite legacy_get_ready, legacy_buildUrlWithParameters_ready.
  change (legacy_url_of h _ _)
    with (legacy_continuation_url h ["user"; "tweets"] params (tweets_ContinuationToken r)).
  rewrite Hurl, Hpending, (respond_delivers _ _ Hresp), Hjson.
  unfold bind, deref. rewrite replace_last_app. reflexivity.
Qed.

(** The hand-written loop on a script that holds the pages up to the
    first one with an empty token. *)
Lemma legacy_loop_run (front : list page) :
  forall (r last : page) (nexts : list page) (answers rest : list round_trip)
         (log : list Request) (n fuel : nat) (tweets : list Tweet),
    r :: nexts = front ++ [last] ->
    fetched_fresh answers nexts ->
    Forall (fun p => tweets_ContinuationToken p <> "") front ->
    tweets_ContinuationToken last = "" ->
    Forall (fun p => http_NewRequest_err
                       (legacy_continuation_url h ["user"; "tweets"] params
                          (tweets_ContinuationToken p)) = None)
           front ->
    length answers < fuel ->
    Legacy.GetUserTweets_loop fuel c (tweets_ContinuationToken r)
      (params ++ [continuation_param (tweets_ContinuationToken r)]) tweets
      {| pending := answers ++ rest; sent := log; taken := n |} =
    Ret (tweets ++ concat (map tweets_Results nexts), None)
        {| pending := rest;
           sent := log ++ map (legacy_continuation_request
                                 apikey h ["user"; "tweets"] params) front;
           taken := n + length front |}.
Proof.
  induction front as [|f front IH];
    intros r last nexts answers rest log n fuel tweets Hseq Hfetched Hne Hlast Hurls Hfuel.
  - simpl in Hseq. injection Hseq as -> ->. inversion Hfetched; subst.
    rewrite Hlast, legacy_loop_stop. simpl.
    rewrite !app_nil_r, Nat.add_0_r. reflexivity.
  - simpl in Hseq. injection Hseq as Hr Hn. subst f nexts.
    inversion Hfetched as [|resp data r' answers' pages' Hresp Hjson Hrest Ha Hp];
      [destruct front; discriminate|]. subst answers.
    destruct fuel as [|fuel]; [simpl in Hfuel; lia|].
    inversion Hne; subst. inversion Hurls; subst.
    cbn [app].
    rewrite (legacy_loop_step fuel r r' tweets _ resp (answers' ++ rest) data); auto.
    unfold after_round_trip. cbn [pending sent taken].
    rewrite (IH r' last pages' answers' rest _ (S n) fuel (tweets ++ tweets_Results r'));
      auto; [|simpl in Hfuel; lia].
    simpl. rewrite <- !app_assoc. simpl. do 2 f_equal. lia.
Qed.

(** The whole hand-written [GetUserTweets] on such a script: the items
    of the first page are not in the list it returns. *)
Lemma legacy_GetUserTweets_run (pages : list page) (last : page)
      (answers rest : list round_trip) (log : list Request) (n : nat) :
  fetched_fresh answers (pages ++ [last]) ->
  Forall (fun p => tweets_ContinuationToken p <> "") pages ->
  tweets_ContinuationToken last = "" ->
  http_NewRequest_err (legacy_url_of h ["user"; "tweets"] params) = None ->
  Forall (fun p => http_NewRequest_err
                     (legacy_continuation_url h ["user"; "tweets"] params
                        (tweets_ContinuationToken p)) = None)
         pages ->
  Legacy.GetUserTweets c userId opts
                       {| pending := answers ++ rest; sent := log; taken := n |} =
  Ret (concat (map tweets_Results (tl (pages ++ [last]))), None)
      {| pending := rest;
         sent := log ++ request_to apikey h (legacy_url_of h ["user"; "tweets"] params)
                     :: map (legacy_continuation_request
                               apikey h ["user"; "tweets"] params) pages;
         taken := n + S (length pages) |}.
Proof.
  intros Hfetched Hne Hlast Hurl Hurls.
  inversion Hfetched as [|resp data r1 answers' nexts Hresp Hjson Hrest Ha Hp];
    [destruct pages; discriminate|]. subst.
  unfold Legacy.GetUserTweets. fold params. unfold bind at 1. unfold c at 1.
  rewrite legacy_get_ready, legacy_buildUrlWithParameters_ready, Hurl.
  cbn [pending app].
  rewrite (respond_delivers _ _ Hresp), Hjson.
  unfold after_round_trip. cbn [pending sent taken].
  rewrite (legacy_loop_run pages r1 last nexts answers' rest _ (S n) _ []); auto.
  - simpl. rewrite <- app_assoc. simpl. do 2 f_equal. lia.
  - simpl. rewrite length_app. lia.
Qed.



End LegacyFacts.


(* ===================================================================== *)
(** * The endpoints that are not implemented *)
(* ===================================================================== *)

(** C8.  Every endpoint that is not implemented returns the sentinel
    [ErrNotImplemented] and leaves the world as it was: no request was
    sent, no admission taken, no answer used.  An error that the engine
    returns for a failed fetch or decode ([getResult],
    [getResultPaginated]) is never that value. *)
Theorem not_implemented_is_immediate_and_distinct :
  (forall (Tweet User : Type) (c : Client) (s : string) (z : Z)
          (opts : list geoSearchOption) (w : world),
      GetUserLikes (Tweet := Tweet) c s w = Ret ([], Some ErrNotImplemented) w
      /\ GetUserMedia c s w = Ret (None, Some ErrNotImplemented) w
      /\ GetTweetUserRetweets (User := User) c s w = Ret ([], Some ErrNotImplemented) w
      /\ Search (Tweet := Tweet) c s w = Ret ([], Some ErrNotImplemented) w
      /\ GeoSearch (Tweet := Tweet) c s opts w = Ret ([], Some ErrNotImplemented) w
      /\ Hashtag (Tweet := Tweet) c s w = Ret ([], Some ErrNotImplemented) w
      /\ GetListDetails c s w = Ret (None, Some ErrNotImplemented) w
      /\ GetListTweets (Tweet := Tweet) c s w = Ret ([], Some ErrNotImplemented) w
      /\ GetTrends c z w = Ret ([], Some ErrNotImplemented) w
      /\ GetLocations c w = Ret ([], Some ErrNotImplemented) w)
  /\ (forall (std : Std) (T R : Type) (zero_R : Zero R) (json_R : JSON R)
             (zero_T : Zero T) (result_R : result T R)
             (c : Client) (path : list string) (params : list param)
             (w w' : world) (v : T) (e : error),
         getResult c path params w = Ret (v, Some e) w' -> e <> ErrNotImplemented)
  /\ (forall (std : Std) (T R : Type) (zero_R : Zero R) (json_R : JSON R)
             (paginated_R : resultPaginated T R)
             (c : Client) (path : list string) (params : list param)
             (w w' : world) (res : list T) (e : error),
         getResultPaginated c path params w = Ret (res, Some e) w' ->
         e <> ErrNotImplemented).
Proof.
  splits.
  - intros. splits; reflexivity.
  - intros std T R zero_R json_R zero_T result_R c path params w w' v e Hrun.
    apply getResult_error in Hrun. apply made_by_Errorf_not_sentinel, Hrun.
  - intros std T R zero_R json_R paginated_R c path params w w' res e Hrun.
    apply getResultPaginated_error in Hrun. apply made_by_Errorf_not_sentinel, Hrun.
Qed.

(* ===================================================================== *)
(** * The statements at sample inputs *)
(* ===================================================================== *)

Ltac sample_delivers := exists 200%Z; split; [lia | reflexivity].

Ltac sample_fetched :=
  repeat first
    [ apply fetched_nil
    | apply fetched_fresh_nil
    | eapply fetched_cons; [sample_delivers | reflexivity | ]
    | eapply fetched_fresh_cons; [sample_delivers | reflexivity | ] ].

Ltac sample_all := repeat constructor; try discriminate; try reflexivity.



(** The other examples of the design document: a first page that is empty
    gives the empty list after one round trip; a 404 on the first fetch
    and a body that does not decode give an error and no list. *)
Example first_page_empty :
  GetUserTweets (std := sample_std) (json_tweets := sample_json)
    sample_client "44196397" [] (sample_world [sample_page "v" []]%byte)
  = Ret ([], None)
        {| pending := [];
           sent := [ request_to "KEY" "twitter154.p.rapidapi.com"
                       (url_of "twitter154.p.rapidapi.com" ["user"; "tweets"]
                          (GetUserTweets_params "44196397" [])) ];
           taken := 1 |}.
Proof. reflexivity. Qed.

Example first_fetch_404 :
  GetUserTweets (std := sample_std) (json_tweets := sample_json)
    sample_client "44196397" []
    (sample_world [Do_resp 404 (ReadAll_ok ["t"; "a"]%byte)])
  = Ret ([], Some (Errorf_w "get" (Errorf_status 404)))
        {| pending := [];
           sent := [ request_to "KEY" "twitter154.p.rapidapi.com"
                       (url_of "twitter154.p.rapidapi.com" ["user"; "tweets"]
                          (GetUserTweets_params "44196397" [])) ];
           taken := 1 |}.
Proof. reflexivity. Qed.

Example body_does_not_decode :
  GetUserTweets (std := sample_std) (json_tweets := sample_json)
    sample_client "44196397" []
    (sample_world [sample_page "t" ["a"]%byte; Do_resp 200 (ReadAll_ok [])])
  = Ret ([], Some (Errorf_w "unmarshal response"
                     (foreign "unexpected end of JSON input")))
        {| pending := [];
           sent := [ request_to "KEY" "twitter154.p.rapidapi.com"
                       (url_of "twitter154.p.rapidapi.com" ["user"; "tweets"]
                          (GetUserTweets_params "44196397" []));
                     request_to "KEY" "twitter154.p.rapidapi.com"
                       (url_of "twitter154.p.rapidapi.com"
                          ["user"; "tweets"; "continuation"]
                          (GetUserTweets_params "44196397" []
                             ++ [continuation_param "t"])) ];
           taken := 2 |}.
Proof. reflexivity. Qed.

(** The two kinds of hand-written loop on the pages [[a,b], [c]]:
    [GetUserTweets] returns the items of the second page only,
    [GetTweetReplies], which appends the first page before its loop,
    returns them all. *)
Example legacy_first_page :
  returned
    (Legacy.GetUserTweets (std := sample_std) (json_tweets := sample_json)
       sample_client "44196397" []
       (sample_world [sample_page "t" ["a"; "b"]; sample_page "0" ["c"]]%byte))
  = Some (["c"]%byte, None)
  /\ returned
       (Legacy.GetTweetReplies (std := sample_std) (json_replies := sample_json_replies)
          sample_client "1"
          (sample_world [sample_page "t" ["a"; "b"]; sample_page "0" ["c"]]%byte))
     = Some (["a"; "b"; "c"]%byte, None).
Proof. split; reflexivity. Qed.

(** C2, where the code departs from it.  The [buildUrlWithParameters] of
    [twitter154/api.go] puts a value into the URL as it is: the token
    [a+b c] goes out unescaped, where the one of the generic engine sends
    [a%2Bb+c]. *)
Theorem legacy_buildUrlWithParameters_unescaped :
  Legacy.buildUrlWithParameters sample_client ["tweet"; "replies"; "continuation"]
    [ {| key := "tweet_id"; value := any_string "1" |}; continuation_param "a+b c" ]
  = Some "https://twitter154.p.rapidapi.com/tweet/replies/continuation?tweet_id=1&continuation_token=a+b c"
  /\ buildUrlWithParameters sample_client ["tweet"; "replies"; "continuation"]
       [ {| key := "tweet_id"; value := any_string "1" |}; continuation_param "a+b c" ]
     = Some "https://twitter154.p.rapidapi.com/tweet/replies/continuation?tweet_id=1&continuation_token=a%2Bb+c".
Proof. split; reflexivity. Qed.

(** C3, where the code departs from it.  [getResultPaginated] declares
    its response value [r] once and unmarshals every body into it, and
    [json.Unmarshal] leaves a field alone when the body has no key for it
    (or has [null]).  The first body carries the item [a] and the token
    [t]; the second carries the item [b] and no token; the third carries no
    item.  The third request goes out with [continuation_token=t], the
    token of the first page, where the page just before returned none.
    The hand-written loop of [twitter154/api.go], which declares a new
    [r] in every iteration, reads no token from the second body and sends
    no third request. *)
Theorem getResultPaginated_sends_stale_token :
  json_Unmarshal (JSON := sample_json_keeping) ["-"; "+"; "b"]%byte zero
  = inr {| tweets_Results := ["b"]%byte; tweets_ContinuationToken := "" |}
  /\ getResultPaginated (std := sample_std) (json_R := sample_json_keeping)
       sample_client ["user"; "tweets"] (GetUserTweets_params "44196397" [])
       (sample_world [ Do_resp 200 (ReadAll_ok ["t"; "+"; "a"]%byte);
                       Do_resp 200 (ReadAll_ok ["-"; "+"; "b"]%byte);
                       Do_resp 200 (ReadAll_ok ["-"; "+"]%byte) ])
     = Ret (["a"; "b"]%byte, None)
           {| pending := [];
              sent :=
                [ request_to "KEY" "twitter154.p.rapidapi.com"
                    "https://twitter154.p.rapidapi.com/user/tweets?user_id=44196397&limit=100&include_replies=false&include_pinned=false";
                  request_to "KEY" "twitter154.p.rapidapi.com"
                    "https://twitter154.p.rapidapi.com/user/tweets/continuation?user_id=44196397&limit=100&include_replies=false&include_pinned=false&continuation_token=t";
                  request_to "KEY" "twitter154.p.rapidapi.com"
                    "https://twitter154.p.rapidapi.com/user/tweets/continuation?user_id=44196397&limit=100&include_replies=false&include_pinned=false&continuation_token=t" ];
              taken := 3 |}
  /\ Legacy.GetUserTweets (std := sample_std) (json_tweets := sample_json_keeping)
       sample_client "44196397" []
       (sample_world [ Do_resp 200 (ReadAll_ok ["t"; "+"; "a"]%byte);
                       Do_resp 200 (ReadAll_ok ["-"; "+"; "b"]%byte);
                       Do_resp 200 (ReadAll_ok ["-"; "+"]%byte) ])
     = Ret (["b"]%byte, None)
           {| pending := [ Do_resp 200 (ReadAll_ok ["-"; "+"]%byte) ];
              sent :=
                [ request_to "KEY" "twitter154.p.rapidapi.com"
                    "https://twitter154.p.rapidapi.com/user/tweets?user_id=44196397&limit=100&include_replies=false&include_pinned=false";
                  request_to "KEY" "twitter154.p.rapidapi.com"
                    "https://twitter154.p.rapidapi.com/user/tweets/continuation?user_id=44196397&limit=100&include_replies=false&include_pinned=false&continuation_token=t" ];
              taken := 2 |}.
Proof. splits; reflexivity. Qed.

(** The same reuse of [r] on the items: the second body carries neither
    key, so the page it returns has no item; the loop does not stop
    there, it appends the item of the first page once more and fetches
    again. *)
Example getResultPaginated_appends_stale_items :
  json_Unmarshal (JSON := sample_json_keeping) ["-"; "-"]%byte zero
  = inr {| tweets_Results := []; tweets_ContinuationToken := "" |}
  /\ returned
       (getResultPaginated (std := sample_std) (json_R := sample_json_keeping)
          sample_client ["user"; "tweets"] (GetUserTweets_params "44196397" [])
          (sample_world [ Do_resp 200 (ReadAll_ok ["t"; "+"; "a"]%byte);
                          Do_resp 200 (ReadAll_ok ["-"; "-"]%byte);
                          Do_resp 200 (ReadAll_ok ["-"; "+"]%byte) ]))
     = Some (["a"; "a"]%byte, None).
Proof. split; reflexivity. Qed.

(** At the samples: the three requests of the run over [[a,b], [c], []],
    and the two requests of a run whose second answer is a 500. *)
Lemma getResultPaginated_requests_witness :
  (exists res w',
      getResultPaginated (std := sample_std) (json_R := sample_json)
        sample_client ["user"; "tweets"] (GetUserTweets_params "44196397" [])
        (sample_world [sample_page "t" ["a"; "b"]; sample_page "u" ["c"];
                       sample_page "v" []]%byte)
      = Ret (res, None) w'
      /\ sent w' =
         [ request_to "KEY" "twitter154.p.rapidapi.com"
             "https://twitter154.p.rapidapi.com/user/tweets?user_id=44196397&limit=100&include_replies=false&include_pinned=false";
           request_to "KEY" "twitter154.p.rapidapi.com"
             "https://twitter154.p.rapidapi.com/user/tweets/continuation?user_id=44196397&limit=100&include_replies=false&include_pinned=false&continuation_token=t";
           request_to "KEY" "twitter154.p.rapidapi.com"
             "https://twitter154.p.rapidapi.com/user/tweets/continuation?user_id=44196397&limit=100&include_replies=false&include_pinned=false&continuation_token=u" ])
  /\ (exists (answers : list round_trip) (pages : list (getUserTweetsResponse byte))
             (m : nat),
         fetched (json_R := sample_json) zero answers pages
         /\ (exists tl,
                [sample_page "t" ["a"; "b"]%byte; Do_resp 500 (ReadAll_ok [])]
                = answers ++ tl)
         /\ 2 = m + 0
         /\ [ request_to "KEY" "twitter154.p.rapidapi.com"
                (url_of "twitter154.p.rapidapi.com" ["user"; "tweets"]
                        (GetUserTweets_params "44196397" []));
              request_to "KEY" "twitter154.p.rapidapi.com"
                (url_of "twitter154.p.rapidapi.com" ["user"; "tweets"; "continuation"]
                        (GetUserTweets_params "44196397" [] ++ [continuation_param "t"])) ]
            = [] ++ firstn m
                (request_to "KEY" "twitter154.p.rapidapi.com"
                   (url_of "twitter154.p.rapidapi.com" ["user"; "tweets"]
                           (GetUserTweets_params "44196397" []))
                 :: map (fun p : getUserTweetsResponse byte =>
                           request_to "KEY" "twitter154.p.rapidapi.com"
                             (url_of "twitter154.p.rapidapi.com"
                                (["user"; "tweets"] ++ ["continuation"])
                                (GetUserTweets_params "44196397" []
                                   ++ [continuation_param (Token p)])))
                        pages)).
Proof.
  split.
  - refine (proj1 (getResultPaginated_requests
                     (std := sample_std) (T := byte) (json_R := sample_json)
                     "KEY" "twitter154.p.rapidapi.com" ratelimit_NewUnlimited
                     http_DefaultClient
                     ["user"; "tweets"] (GetUserTweets_params "44196397" []))
                  [page_ab_t; page_c_u] page_none_v
                  [sample_page "t" ["a"; "b"]; sample_page "u" ["c"];
                   sample_page "v" []]%byte [] [] 0 _ _ _ _ _).
    + sample_fetched.
    + sample_all.
    + reflexivity.
    + reflexivity.
    + sample_all.
  - apply (proj2 (getResultPaginated_requests
                    (std := sample_std) (T := byte) (json_R := sample_json)
                    "KEY" "twitter154.p.rapidapi.com" ratelimit_NewUnlimited
                    http_DefaultClient
                    ["user"; "tweets"] (GetUserTweets_params "44196397" []))
                 (sample_world [sample_page "t" ["a"; "b"]%byte;
                                Do_resp 500 (ReadAll_ok [])])
                 {| pending := [];
                    sent := [ request_to "KEY" "twitter154.p.rapidapi.com"
                                (url_of "twitter154.p.rapidapi.com" ["user"; "tweets"]
                                        (GetUserTweets_params "44196397" []));
                              request_to "KEY" "twitter154.p.rapidapi.com"
                                (url_of "twitter154.p.rapidapi.com"
                                        ["user"; "tweets"; "continuation"]
                                        (GetUserTweets_params "44196397" []
                                           ++ [continuation_param "t"])) ];
                    taken := 2 |}
                 ([], Some (Errorf_w "get" (Errorf_status 500)))).
    reflexivity.
Defined.

(** At the samples: a 500 after the page [[a,b]] gives the nil list and
    the error; a run that returns the nil error has used the pages up to
    the empty one. *)
Lemma getResultPaginated_all_or_nothing_witness :
  (exists w',
      getResultPaginated (std := sample_std) (json_R := sample_json)
        sample_client ["user"; "tweets"] (GetUserTweets_params "44196397" [])
        (sample_world [sample_page "t" ["a"; "b"]%byte; Do_resp 500 (ReadAll_ok [])])
      = Ret ([], Some (Errorf_w "get" (Errorf_status 500))) w')
  /\ (exists (answers : list round_trip) (pages : list (getUserTweetsResponse byte))
             (last : getUserTweetsResponse byte),
         [sample_page "t" ["a"; "b"]; sample_page "v" []]%byte = answers ++ []
         /\ fetched (json_R := sample_json) zero answers (pages ++ [last])
         /\ Forall (fun p => Result p <> []) pages
         /\ Result last = []
         /\ ["a"; "b"]%byte = concat (map Result pages)).
Proof.
  split.
  - apply (proj1 (getResultPaginated_all_or_nothing
                    (std := sample_std) (T := byte) (json_R := sample_json)
                    "KEY" "twitter154.p.rapidapi.com" ratelimit_NewUnlimited
                    http_DefaultClient
                    ["user"; "tweets"] (GetUserTweets_params "44196397" []))
                 [page_ab_t] [sample_page "t" ["a"; "b"]%byte] []
                 (Do_resp 500 (ReadAll_ok []))
                 (Errorf_w "get" (Errorf_status 500)) [] 0).
    + sample_fetched.
    + sample_all.
    + reflexivity.
    + sample_all.
    + left. exists [], (Errorf_status 500). split; reflexivity.
  - apply (proj2 (getResultPaginated_all_or_nothing
                    (std := sample_std) (T := byte) (json_R := sample_json)
                    "KEY" "twitter154.p.rapidapi.com" ratelimit_NewUnlimited
                    http_DefaultClient
                    ["user"; "tweets"] (GetUserTweets_params "44196397" []))
                 (sample_world [sample_page "t" ["a"; "b"]; sample_page "v" []]%byte)
                 {| pending := [];
                    sent := [ request_to "KEY" "twitter154.p.rapidapi.com"
                                (url_of "twitter154.p.rapidapi.com" ["user"; "tweets"]
                                        (GetUserTweets_params "44196397" []));
                              request_to "KEY" "twitter154.p.rapidapi.com"
                                (url_of "twitter154.p.rapidapi.com"
                                        ["user"; "tweets"; "continuation"]
                                        (GetUserTweets_params "44196397" []
                                           ++ [continuation_param "t"])) ];
                    taken := 2 |}
                 ["a"; "b"]%byte None).
    reflexivity.
Defined.

(** At the samples: a 404, a 200 whose body is read, a 200 whose body
    is not. *)
Lemma do_status_and_body_witness :
  do sample_client {| Method := "GET"; URL := "https://example.com/"; Header := [] |}
     (sample_world [Do_resp 404 (ReadAll_ok ["x"]%byte)])
  = Ret ([], Some (Errorf_status 404))
        (after_round_trip (sample_world [Do_resp 404 (ReadAll_ok ["x"]%byte)])
                          (request_to "KEY" "twitter154.p.rapidapi.com"
                                      "https://example.com/") [])
  /\ do sample_client {| Method := "GET"; URL := "https://example.com/"; Header := [] |}
        (sample_world [Do_resp 200 (ReadAll_ok ["x"]%byte)])
     = Ret (["x"]%byte, None)
           (after_round_trip (sample_world [Do_resp 200 (ReadAll_ok ["x"]%byte)])
                             (request_to "KEY" "twitter154.p.rapidapi.com"
                                         "https://example.com/") [])
  /\ do sample_client {| Method := "GET"; URL := "https://example.com/"; Header := [] |}
        (sample_world [Do_resp 200 (ReadAll_err (foreign "unexpected EOF"))])
     = Ret ([], Some (Errorf_w "read response body" (foreign "unexpected EOF")))
           (after_round_trip
              (sample_world [Do_resp 200 (ReadAll_err (foreign "unexpected EOF"))])
              (request_to "KEY" "twitter154.p.rapidapi.com" "https://example.com/") []).
Proof.
  splits.
  - apply (proj1 (do_status_and_body
                    "KEY" "twitter154.p.rapidapi.com" ratelimit_NewUnlimited
                    http_DefaultClient
                    {| Method := "GET"; URL := "https://example.com/"; Header := [] |}
                    (sample_world [Do_resp 404 (ReadAll_ok ["x"]%byte)])
                    404 (ReadAll_ok ["x"]%byte) [] eq_refl)).
    right. lia.
  - apply (proj1 (proj2 (do_status_and_body
                    "KEY" "twitter154.p.rapidapi.com" ratelimit_NewUnlimited
                    http_DefaultClient
                    {| Method := "GET"; URL := "https://example.com/"; Header := [] |}
                    (sample_world [Do_resp 200 (ReadAll_ok ["x"]%byte)])
                    200 (ReadAll_ok ["x"]%byte) [] eq_refl))
                 ["x"]%byte); [lia | reflexivity].
  - apply (proj2 (proj2 (do_status_and_body
                    "KEY" "twitter154.p.rapidapi.com" ratelimit_NewUnlimited
                    http_DefaultClient
                    {| Method := "GET"; URL := "https://example.com/"; Header := [] |}
                    (sample_world [Do_resp 200 (ReadAll_err (foreign "unexpected EOF"))])
                    200 (ReadAll_err (foreign "unexpected EOF")) [] eq_refl))
                 (foreign "unexpected EOF")); [lia | reflexivity].
Defined.

(** Against the claim on the executor, as it is worded: the transport
    call succeeded with status 200, inside the range, and [do] fails all
    the same, for the body could not be read. *)
Lemma do_fails_inside_the_range : ~ fails_exactly_on_bad_status.
Proof.
  intros Hclaim.
  assert (Hrun :
    do sample_client {| Method := "GET"; URL := "https://example.com/"; Header := [] |}
       (sample_world [Do_resp 200 (ReadAll_err (foreign "unexpected EOF"))])
    = Ret ([], Some (Errorf_w "read response body" (foreign "unexpected EOF")))
          (after_round_trip
             (sample_world [Do_resp 200 (ReadAll_err (foreign "unexpected EOF"))])
             (request_to "KEY" "twitter154.p.rapidapi.com" "https://example.com/") []))
    by reflexivity.
  destruct (Hclaim "KEY" "twitter154.p.rapidapi.com" ratelimit_NewUnlimited
                   http_DefaultClient _
                   (sample_world [Do_resp 200 (ReadAll_err (foreign "unexpected EOF"))])
                   _ 200%Z (ReadAll_err (foreign "unexpected EOF"))
                   [] _ _ eq_refl Hrun) as [Hfails _].
  assert (Hout : (200 < 200 \/ 299 < 200)%Z) by (apply Hfails; discriminate).
  lia.
Qed.

(** At the samples: the second of three options is [WithHost] with a
    host that does not parse. *)
Lemma New_aborts_at_failing_option_witness :
  New "KEY" ([WithRateLimit (ratelimit_New 5)]
               ++ WithHost (std := sample_std) sample_bad_host
               :: [WithHttpClient {| Timeout := 30 |}])
  = (Client_zero,
     Some (Errorf_w "bad option"
             (Errorf_w "invalid host"
                (foreign "net/url: invalid control character in URL"))))
  /\ apply_options ([WithRateLimit (ratelimit_New 5)]
                      ++ WithHost (std := sample_std) "example.com"
                      :: [WithHttpClient {| Timeout := 30 |}]) options_zero
     = apply_options [WithHttpClient {| Timeout := 30 |}]
                     {| host := "example.com"; rateLimit := Some (ratelimit_New 5);
                        httpClient := None |}.
Proof.
  split.
  - apply (proj1 (proj2 (New_aborts_at_failing_option
                           sample_std "KEY" [WithRateLimit (ratelimit_New 5)]
                           [WithHttpClient {| Timeout := 30 |}]
                           {| host := ""; rateLimit := Some (ratelimit_New 5);
                              httpClient := None |} eq_refl))
                 sample_bad_host
                 (foreign "net/url: invalid control character in URL")).
    reflexivity.
  - apply (proj2 (proj2 (New_aborts_at_failing_option
                           sample_std "KEY" [WithRateLimit (ratelimit_New 5)]
                           [WithHttpClient {| Timeout := 30 |}]
                           {| host := ""; rateLimit := Some (ratelimit_New 5);
                              httpClient := None |} eq_refl))
                 (WithHost (std := sample_std) "example.com")).
    reflexivity.
Defined.

(** At the samples: a host and a limiter are set, the HTTP client is
    not. *)
Lemma New_defaults_only_for_unset_witness :
  exists o',
    New "KEY" [WithHost (std := sample_std) "example.com"; WithRateLimit (ratelimit_New 5)]
    = ({| apiKey := "KEY"; Client_options := Some o' |}, None)
    /\ host o' = "example.com"
    /\ rateLimit o' = Some (ratelimit_New 5)
    /\ httpClient o' = Some http_DefaultClient.
Proof.
  apply (New_defaults_only_for_unset
           "KEY" [WithHost (std := sample_std) "example.com"; WithRateLimit (ratelimit_New 5)]
           {| host := "example.com"; rateLimit := Some (ratelimit_New 5);
              httpClient := None |}).
  reflexivity.
Defined.

(** At the samples: the error of a call whose first fetch got a 500. *)
Lemma not_implemented_is_immediate_and_distinct_witness :
  Errorf_w "get" (Errorf_status 500) <> ErrNotImplemented.
Proof.
  apply (proj2 (proj2 not_implemented_is_immediate_and_distinct)
               sample_std byte (getUserTweetsResponse byte)
               getUserTweetsResponse_zero sample_json getUserTweetsResponse_paginated
               sample_client ["user"; "tweets"] (GetUserTweets_params "44196397" [])
               (sample_world [Do_resp 500 (ReadAll_ok [])])
               {| pending := [];
                  sent := [ request_to "KEY" "twitter154.p.rapidapi.com"
                              (url_of "twitter154.p.rapidapi.com" ["user"; "tweets"]
                                      (GetUserTweets_params "44196397" [])) ];
                  taken := 1 |}
               []).
  reflexivity.
Defined.



(* ===================================================================== *)
(** * Further properties: configuration *)
(* ===================================================================== *)

Lemma apply_options_settings (std : Std) (settings : list setting) :
  forall o : options,
    apply_options (map option_of settings) o =
    match first_rejected settings with
    | Some err => inl (Errorf_w "bad option" (Errorf_w "invalid host" err))
    | None => inr {| host := last_host settings (host o);
                     rateLimit := last_rateLimit settings (rateLimit o);
                     httpClient := last_httpClient settings (httpClient o) |}
    end.
Proof.
  induction settings as [|s settings IH]; intros o.
  - destruct o; reflexivity.
  - destruct s as [h | rl | hc]; cbn [map option_of apply_options first_rejected].
    + unfold WithHost at 1.
      destruct (http_NewRequest_err ("https://" ++ h)) as [err|]; [reflexivity|].
      rewrite IH. reflexivity.
    + unfold WithRateLimit at 1. rewrite IH. reflexivity.
    + unfold WithHttpClient at 1. rewrite IH. reflexivity.
Qed.

(** X1.  On the options a caller can write, [New] fails exactly when one
    of the hosts given does not parse, with the parse error of the first
    such host wrapped as "invalid host" and then as "bad option";
    otherwise it returns the client with the key, and for each field what
    the last option of its kind gave, or the default where there is no
    option of that kind or the last one gave the zero value (as a last
    [WithHost] of the empty host does). *)
Theorem New_on_settings (std : Std) (key : string) (settings : list setting) :
  New key (map option_of settings) =
  match first_rejected settings with
  | Some err =>
      (Client_zero, Some (Errorf_w "bad option" (Errorf_w "invalid host" err)))
  | None =>
      ({| apiKey := key;
          Client_options :=
            Some {| host := if (last_host settings "" =? "")%string
                            then "twitter154.p.rapidapi.com"
                            else last_host settings "";
                    rateLimit := Some (match last_rateLimit settings None with
                                       | Some rl => rl
                                       | None => ratelimit_NewUnlimited
                                       end);
                    httpClient := Some (match last_httpClient settings None with
                                        | Some hc => hc
                                        | None => http_DefaultClient
                                        end) |} |},
       None)
  end.
Proof.
  unfold New. rewrite apply_options_settings.
  destruct (first_rejected settings); [reflexivity|].
  unfold fill_defaults. cbn [host rateLimit httpClient options_zero].
  destruct (last_host settings "" =? "")%string;
    destruct (last_rateLimit settings None);
    destruct (last_httpClient settings None); reflexivity.
Qed.

(* ===================================================================== *)
(** * Further properties: the parameters of [GetUserTweets] *)
(* ===================================================================== *)

Lemma getUserTweetsOptions_fold (settings : list tweets_setting) :
  forall o : getUserTweetsOptions,
    fold_left (fun o opt => opt o) (map tweets_option_of settings) o =
    {| includeReplies := includeReplies o || existsb asks_replies settings;
       includePinned := includePinned o || existsb asks_pinned settings |}.
Proof.
  induction settings as [|s settings IH]; intros o; simpl.
  - destruct o. simpl. now rewrite !orb_false_r.
  - rewrite IH. destruct s; simpl; f_equal;
      try reflexivity; try (now rewrite orb_true_r); now rewrite orb_false_r.
Qed.

(** X2.  Whatever options are given, in whatever order and however many
    times, [GetUserTweets] sends the same four parameters in the same
    order: the user id, the limit 100, [include_replies] and
    [include_pinned], each "true" exactly when its option is among those
    given. *)
Theorem GetUserTweets_params_on_settings (userId : string)
        (settings : list tweets_setting) :
  GetUserTweets_params userId (map tweets_option_of settings) =
  [ {| key := "user_id"; value := any_string userId |};
    {| key := "limit"; value := any_int 100 |};
    {| key := "include_replies";
       value := any_string (text_of_bool (existsb asks_replies settings)) |};
    {| key := "include_pinned";
       value := any_string (text_of_bool (existsb asks_pinned settings)) |} ].
Proof.
  unfold GetUserTweets_params. rewrite getUserTweetsOptions_fold. simpl.
  destruct (existsb asks_replies settings), (existsb asks_pinned settings); reflexivity.
Qed.

(* ===================================================================== *)
(** * Further properties: the request builder *)
(* ===================================================================== *)

Lemma count_byte_app (ch : ascii) (a b : string) :
  count_byte ch (a ++ b) = count_byte ch a + count_byte ch b.
Proof. induction a; simpl; [reflexivity | rewrite IHa; lia]. Qed.

Lemma upperhex_unreserved (n : nat) : unreserved (upperhex n) = true.
Proof. do 16 (destruct n as [|n]; [reflexivity|]). reflexivity. Qed.

Lemma never_escaped_to_other (ch c : ascii) :
  never_escaped_to ch = true ->
  (unreserved c = true \/ c = "+"%char \/ c = "%"%char) ->
  (ch =? c)%char = false.
Proof.
  unfold never_escaped_to. intros Hch Hc.
  apply andb_prop in Hch. destruct Hch as [Hch Hpercent].
  apply andb_prop in Hch. destruct Hch as [Hun Hplus].
  destruct (Ascii.eqb_spec ch c) as [->|]; [|reflexivity].
  destruct Hc as [Hc | [-> | ->]].
  - rewrite Hc in Hun. discriminate.
  - discriminate.
  - discriminate.
Qed.

Lemma url_QueryEscape_count (ch : ascii) (s : string) :
  never_escaped_to ch = true -> count_byte ch (url_QueryEscape s) = 0.
Proof.
  intros Hch. induction s as [|c s IH]; [reflexivity|].
  cbn [url_QueryEscape].
  destruct (unreserved c) eqn:Hc.
  - cbn [count_byte]. rewrite IH, (never_escaped_to_other ch c); auto.
  - destruct (nat_of_ascii c =? 32)%nat.
    + cbn [count_byte]. rewrite IH, (never_escaped_to_other ch "+"); auto.
    + cbn [count_byte].
      rewrite IH, (never_escaped_to_other ch "%"),
        !(never_escaped_to_other ch (upperhex _));
        auto using upperhex_unreserved.
Qed.

Lemma amp_pairs_count (ch : ascii) (params : list param) :
  never_escaped_to ch = true ->
  count_byte ch (amp_pairs params) = count_byte ch (amp_pairs (map without_value params)).
Proof.
  intros Hch. induction params as [|p params IH]; [reflexivity|].
  cbn [amp_pairs map]. unfold pair_text. cbn [key value without_value Sprint_v].
  rewrite !count_byte_app, IH, url_QueryEscape_count by assumption.
  reflexivity.
Qed.

(** X3.  No value of a parameter can put a byte into the URL that
    [url.QueryEscape] does not put out, such as [&], [=], [?], [#], [/] or
    the space: of each such byte the URL of the generic engine has as many
    as the URL of the same parameters with their values emptied. *)
Theorem buildUrlWithParameters_values_contained (ch : ascii) (c : Client)
        (path : list string) (params : list param) :
  never_escaped_to ch = true ->
  option_map (count_byte ch) (buildUrlWithParameters c path params) =
  option_map (count_byte ch) (buildUrlWithParameters c path (map without_value params)).
Proof.
  intros Hch. rewrite !buildUrlWithParameters_query.
  destruct (buildUrl c path) as [base|]; [|reflexivity].
  cbn [option_map]. f_equal. rewrite !count_byte_app. f_equal.
  destruct params as [|p params]; [reflexivity|].
  cbn [query_string map]. unfold pair_text. cbn [key value without_value Sprint_v].
  rewrite !count_byte_app, (amp_pairs_count ch params), url_QueryEscape_count
    by assumption.
  reflexivity.
Qed.

Lemma buildUrlWithParameters_values_contained_witness :
  option_map (count_byte "&")
    (buildUrlWithParameters sample_client ["tweet"; "details"]
       [ {| key := "tweet_id"; value := any_string "1&admin=true" |} ])
  = option_map (count_byte "&")
      (buildUrlWithParameters sample_client ["tweet"; "details"]
         (map without_value
              [ {| key := "tweet_id"; value := any_string "1&admin=true" |} ])).
Proof.
  apply (buildUrlWithParameters_values_contained
           "&" sample_client ["tweet"; "details"]
           [ {| key := "tweet_id"; value := any_string "1&admin=true" |} ]).
  reflexivity.
Defined.

Lemma url_QueryEscape_unreserved (s : string) :
  string_forallb unreserved s = true -> url_QueryEscape s = s.
Proof.
  induction s as [|c s IH]; [reflexivity|]. cbn [string_forallb url_QueryEscape].
  intros H. apply andb_prop in H. destruct H as [Hc Hs].
  rewrite Hc, IH by assumption. reflexivity.
Qed.

Lemma legacy_range_params_unreserved (params : list param) :
  Forall (fun p => string_forallb unreserved (Sprint_v (value p)) = true) params ->
  forall (i : nat) (url : string),
    Legacy.range_params i params url = range_params i params url.
Proof.
  induction 1 as [|p params Hp _ IH]; intros i url; [reflexivity|].
  cbn [Legacy.range_params range_params].
  rewrite (url_QueryEscape_unreserved _ Hp). apply IH.
Qed.

(** X4.  Where every value is made of letters, digits, [-], [_], [.] and
    [~] only, as numeric ids and "true"/"false" are, the older
    [buildUrlWithParameters] and the one of the generic engine build the
    same URL. *)
Theorem legacy_buildUrlWithParameters_same_on_unreserved (c : Client)
        (path : list string) (params : list param) :
  Forall (fun p => string_forallb unreserved (Sprint_v (value p)) = true) params ->
  Legacy.buildUrlWithParameters c path params = buildUrlWithParameters c path params.
Proof.
  intros Hparams. unfold Legacy.buildUrlWithParameters, buildUrlWithParameters.
  destruct (buildUrl c path) as [url|]; [|reflexivity].
  now rewrite legacy_range_params_unreserved.
Qed.

Lemma legacy_buildUrlWithParameters_same_on_unreserved_witness :
  Legacy.buildUrlWithParameters sample_client ["user"; "tweets"]
                                (GetUserTweets_params "44196397" [IncludeReplies])
  = buildUrlWithParameters sample_client ["user"; "tweets"]
                           (GetUserTweets_params "44196397" [IncludeReplies]).
Proof.
  apply (legacy_buildUrlWithParameters_same_on_unreserved
           sample_client ["user"; "tweets"]
           (GetUserTweets_params "44196397" [IncludeReplies])).
  repeat constructor.
Defined.

(* ===================================================================== *)
(** * Further properties: the engine on any client *)
(* ===================================================================== *)

Lemma respond_failure (resp : round_trip) (data : list byte) (e : error) :
  respond resp = (data, Some e) -> get_failure e.
Proof.
  destruct resp as [e' | code body]; simpl.
  - intros [= _ <-]. constructor.
  - destruct (Z.ltb_spec code 200) as [Hlo|Hlo]; simpl.
    + intros [= _ <-]. constructor. lia.
    + destruct (Z.geb_spec code 300) as [Hhi|Hhi]; simpl.
      * intros [= _ <-]. constructor. lia.
      * destruct body; [|discriminate]. intros [= _ <-]. constructor.
Qed.

(** What a return of [do] tells, whatever the client. *)
Lemma do_returns (c : Client) (req : Request) (w w' : world)
      (out : list byte * option error) :
  do c req w = Ret out w' ->
  exists o resp,
    Client_options c = Some o
    /\ pending w = resp :: pending w'
    /\ out = respond resp
    /\ sent w' = sent w ++ [authorized (apiKey c) (host o) req]
    /\ taken w' = S (taken w).
Proof.
  unfold do, bind, deref, ret, panic, Take, httpClient_Do.
  destruct (Client_options c) as [o|]; [|discriminate].
  destruct (rateLimit o); [|discriminate].
  destruct (httpClient o); [|discriminate]. simpl.
  destruct (pending w) as [|resp rest]; [discriminate|].
  intros Hrun. exists o, resp.
  destruct resp as [e0 | code body]; simpl in *.
  - injection Hrun as <- <-. splits; reflexivity.
  - destruct ((code <? 200) || (code >=? 300))%Z.
    + injection Hrun as <- <-. splits; reflexivity.
    + destruct body; injection Hrun as <- <-; splits; reflexivity.
Qed.

Lemma buildUrlWithParameters_some (std : Std) (c : Client) (o : options)
      (path : list string) (params : list param) :
  Client_options c = Some o ->
  buildUrlWithParameters c path params = Some (url_of (host o) path params).
Proof.
  intros Ho. unfold buildUrlWithParameters, buildUrl.
  rewrite Ho, range_params_query. unfold url_of. f_equal. string_assoc.
Qed.

Lemma legacy_buildUrlWithParameters_some (std : Std) (c : Client) (o : options)
      (path : list string) (params : list param) :
  Client_options c = Some o ->
  Legacy.buildUrlWithParameters c path params = Some (legacy_url_of (host o) path params).
Proof.
  intros Ho. unfold Legacy.buildUrlWithParameters, buildUrl. now rewrite Ho.
Qed.

Lemma get_returns (std : Std) (c : Client) (path : list string) (params : list param)
      (w w' : world) (out : list byte * option error) :
  get c path params w = Ret out w' ->
  fetch_report c (fun h => url_of h path params) w w' out.
Proof.
  unfold get, bind, deref, panic.
  destruct (Client_options c) as [o|] eqn:Ho.
  - rewrite (buildUrlWithParameters_some std c o path params Ho). unfold ret at 1.
    destruct (http_NewRequest_err (url_of (host o) path params)) as [e|] eqn:Hurl.
    + intros [= <- <-]. exists o. split; [exact Ho|]. left. now exists e.
    + intros Hrun. apply do_returns in Hrun.
      destruct Hrun as (o' & resp & Ho' & Hpending & Hout & Hsent & Htaken).
      rewrite Ho in Ho'. injection Ho' as <-.
      exists o. split; [exact Ho|]. right. exists resp. splits; auto.
  - unfold buildUrlWithParameters, buildUrl. rewrite Ho. discriminate.
Qed.

Lemma legacy_get_returns (std : Std) (c : Client) (path : list string)
      (params : list param) (w w' : world) (out : list byte * option error) :
  Legacy.get c path params w = Ret out w' ->
  fetch_report c (fun h => legacy_url_of h path params) w w' out.
Proof.
  unfold Legacy.get, bind, deref, panic.
  destruct (Client_options c) as [o|] eqn:Ho.
  - rewrite (legacy_buildUrlWithParameters_some std c o path params Ho). unfold ret at 1.
    destruct (http_NewRequest_err (legacy_url_of (host o) path params)) as [e|] eqn:Hurl.
    + intros [= <- <-]. exists o. split; [exact Ho|]. left. now exists e.
    + intros Hrun. apply do_returns in Hrun.
      destruct Hrun as (o' & resp & Ho' & Hpending & Hout & Hsent & Htaken).
      rewrite Ho in Ho'. injection Ho' as <-.
      exists o. split; [exact Ho|]. right. exists resp. splits; auto.
  - unfold Legacy.buildUrlWithParameters, buildUrl. rewrite Ho. discriminate.
Qed.

Lemma issued_refl (c : Client) (w : world) : issued c w w.
Proof.
  exists [], []. simpl. rewrite app_nil_r, Nat.add_0_r. splits; auto.
Qed.

(** A fetch that returned, followed by a run that issued requests. *)
Lemma issued_after_fetch (std : Std) (c : Client) (url_for : string -> string)
      (w w1 w2 : world) (out : list byte * option error) :
  fetch_report c url_for w w1 out -> issued c w1 w2 -> issued c w w2.
Proof.
  intros (o & Ho & [(e & _ & _ & ->) | (resp & _ & Hpending & _ & Hsent & Htaken)]) Hrest;
    [exact Hrest|].
  destruct Hrest as (reqs & used & Hs & Ht & Hp & Hlen & Hall).
  exists (request_to (apiKey c) (host o) (url_for (host o)) :: reqs), (resp :: used).
  splits.
  - rewrite Hs, Hsent, <- app_assoc. reflexivity.
  - rewrite Ht, Htaken. simpl. lia.
  - rewrite Hpending, Hp. reflexivity.
  - simpl. now rewrite Hlen.
  - constructor; [|exact Hall]. split; [reflexivity|]. exists o. now split.
Qed.

Lemma fetch_report_failure (std : Std) (c : Client) (url_for : string -> string)
      (w w' : world) (data : list byte) (e : error) :
  fetch_report c url_for w w' (data, Some e) -> get_failure e.
Proof.
  intros (o & _ & [(e0 & _ & Hout & _) | (resp & _ & _ & Hout & _)]).
  - injection Hout as _ ->. constructor.
  - symmetry in Hout. now apply respond_failure in Hout.
Qed.

Section EngineOnAnyClient.
Context {std : Std} {T R : Type}.
Context {zero_R : Zero R} {json_R : JSON R}.

Lemma getResult_issued {zero_T : Zero T} {result_R : result T R}
      (c : Client) (path : list string) (params : list param)
      (w w' : world) (v : T) (err : option error) :
  getResult c path params w = Ret (v, err) w' -> issued c w w'.
Proof.
  unfold getResult, bind.
  destruct (get c path params w) as [[data err0] w1| |] eqn:Hget; try discriminate.
  apply get_returns in Hget.
  assert (Hw : w1 = w' -> issued c w w')
    by (intros <-; eapply issued_after_fetch; [exact Hget | apply issued_refl]).
  destruct err0 as [e0|]; [intros [= _ _ H]; auto|].
  destruct (json_Unmarshal data zero); intros [= _ _ H]; auto.
Qed.

Lemma getResult_failure {zero_T : Zero T} {result_R : result T R}
      (c : Client) (path : list string) (params : list param)
      (w w' : world) (v : T) (e : error) :
  getResult c path params w = Ret (v, Some e) w' ->
  v = zero /\ call_failure (R := R) "get" e.
Proof.
  unfold getResult, bind.
  destruct (get c path params w) as [[data err0] w1| |] eqn:Hget; try discriminate.
  apply get_returns in Hget.
  destruct err0 as [e0|].
  - intros [= <- <- _]. split; [reflexivity|]. left. exists e0.
    split; [|reflexivity]. eapply fetch_report_failure, Hget.
  - destruct (json_Unmarshal data zero) as [e0|r] eqn:Hjson; [|discriminate].
    intros [= <- <- _]. split; [reflexivity|]. right. now exists data, zero, e0.
Qed.

Context {paginated_R : resultPaginated T R}.

Lemma paginate_issued (fuel : nat) :
  forall (c : Client) (path : list string) (params : list param) (r : R)
         (acc : list T) (w w' : world) (res : list T) (err : option error),
    paginate fuel c path params r acc w = Ret (res, err) w' -> issued c w w'.
Proof.
  induction fuel as [|fuel IH]; intros c path params r acc w w' res err;
    cbn [paginate]; destruct (Result r); try discriminate;
    try (intros [= _ _ <-]; apply issued_refl).
  unfold bind at 1.
  destruct (get c path params w) as [[data err0] w1| |] eqn:Hget; try discriminate.
  apply get_returns in Hget.
  assert (Hw : forall w2, issued c w1 w2 -> issued c w w2)
    by (intros w2; eapply issued_after_fetch; exact Hget).
  destruct err0 as [e0|]; [intros [= _ _ <-]; apply Hw, issued_refl|].
  destruct (json_Unmarshal data r) as [e0|r'];
    [intros [= _ _ <-]; apply Hw, issued_refl|].
  unfold bind, deref.
  destruct (set_last_value params (any_string (Token r'))); [|discriminate].
  unfold ret. intros Hrun. apply Hw. eapply IH, Hrun.
Qed.

Lemma paginate_failure (fuel : nat) :
  forall (c : Client) (path : list string) (params : list param) (r : R)
         (acc : list T) (w w' : world) (res : list T) (e : error),
    paginate fuel c path params r acc w = Ret (res, Some e) w' ->
    call_failure (R := R) "get" e.
Proof.
  induction fuel as [|fuel IH]; intros c path params r acc w w' res e;
    cbn [paginate]; destruct (Result r); try discriminate.
  unfold bind at 1.
  destruct (get c path params w) as [[data err0] w1| |] eqn:Hget; try discriminate.
  apply get_returns in Hget.
  destruct err0 as [e0|].
  - intros [= _ <- _]. left. exists e0.
    split; [|reflexivity]. eapply fetch_report_failure, Hget.
  - destruct (json_Unmarshal data r) as [e0|r'] eqn:Hjson.
    + intros [= _ <- _]. right. now exists data, r, e0.
    + unfold bind, deref.
      destruct (set_last_value params (any_string (Token r'))); [|discriminate].
      apply IH.
Qed.

(** X6.  Whatever the client, and whether the call fails or not, a call
    of the engine that returns has taken one admission of the limiter for
    each request it sent and used one answer for each, the first ones of
    the script in order; each of its requests is a GET that carries the two
    headers, the key and the host of the client, and no other. *)
Theorem engine_requests_are_admitted :
  (forall (zero_T : Zero T) (result_R : result T R)
          (c : Client) (path : list string) (params : list param)
          (w w' : world) (v : T) (err : option error),
      getResult c path params w = Ret (v, err) w' -> issued c w w')
  /\ (forall (c : Client) (path : list string) (params : list param)
             (w w' : world) (res : list T) (err : option error),
         getResultPaginated c path params w = Ret (res, err) w' -> issued c w w').
Proof.
  split.
  - intros zero_T result_R c path params w w' v err. apply getResult_issued.
  - intros c path params w w' res err. unfold getResultPaginated, bind.
    destruct (get c path params w) as [[data err0] w1| |] eqn:Hget; try discriminate.
    apply get_returns in Hget.
    assert (Hw : forall w2, issued c w1 w2 -> issued c w w2)
      by (intros w2; eapply issued_after_fetch; exact Hget).
    destruct err0 as [e0|]; [intros [= _ _ <-]; apply Hw, issued_refl|].
    destruct (json_Unmarshal data zero) as [e0|r];
      [intros [= _ _ <-]; apply Hw, issued_refl|].
    intros Hrun. apply Hw. eapply paginate_issued, Hrun.
Qed.

(** X7.  An error of the engine says where the call failed: it is
    "get: " around "create request", "send request", "status code" with a
    code outside [200, 299] or "read response body", or it is "unmarshal
    response: " around what the decoder said of a body it was given; and it
    comes with the zero value or the nil list. *)
Theorem engine_errors_are_labelled :
  (forall (zero_T : Zero T) (result_R : result T R)
          (c : Client) (path : list string) (params : list param)
          (w w' : world) (v : T) (e : error),
      getResult c path params w = Ret (v, Some e) w' ->
      v = zero /\ call_failure (R := R) "get" e)
  /\ (forall (c : Client) (path : list string) (params : list param)
             (w w' : world) (res : list T) (e : error),
         getResultPaginated c path params w = Ret (res, Some e) w' ->
         res = [] /\ call_failure (R := R) "get" e).
Proof.
  split.
  - intros zero_T result_R c path params w w' v e. apply getResult_failure.
  - intros c path params w w' res e Hrun.
    split; [eapply getResultPaginated_error, Hrun|].
    revert Hrun. unfold getResultPaginated, bind.
    destruct (get c path params w) as [[data err0] w1| |] eqn:Hget; try discriminate.
    apply get_returns in Hget.
    destruct err0 as [e0|].
    + intros [= _ <- _]. left. exists e0.
      split; [|reflexivity]. eapply fetch_report_failure, Hget.
    + destruct (json_Unmarshal data zero) as [e0|r] eqn:Hjson.
      * intros [= _ <- _]. right. now exists data, zero, e0.
      * apply paginate_failure.
Qed.

(** X8.  A URL that does not parse costs nothing: whatever else the
    client holds, the call returns the "create request" error under
    "get: " with the zero value or the nil list, and no admission was
    taken, no request sent and no answer used. *)
Theorem rejected_url_costs_nothing
        (c : Client) (o : options) (path : list string) (params : list param)
        (e : error) (w : world) :
  Client_options c = Some o ->
  http_NewRequest_err (url_of (host o) path params) = Some e ->
  (forall (zero_T : Zero T) (result_R : result T R),
      getResult c path params w
      = Ret (zero, Some (Errorf_w "get" (Errorf_w "create request" e))) w)
  /\ getResultPaginated c path params w
     = Ret ([], Some (Errorf_w "get" (Errorf_w "create request" e))) w.
Proof.
  intros Ho Hurl.
  assert (Hget : get c path params w = Ret ([], Some (Errorf_w "create request" e)) w).
  { unfold get, bind, deref.
    rewrite (buildUrlWithParameters_some std c o path params Ho).
    unfold ret at 1. now rewrite Hurl. }
  unfold getResult, getResultPaginated, bind. rewrite Hget. split; reflexivity.
Qed.

(** X9.  The client [New] returns next to an error cannot be used: its
    options are nil, and every call of the engine on it panics, before
    anything is sent. *)
Theorem failed_New_client_panics
        (key : string) (opts : list option_) (c : Client) (e : error)
        (path : list string) (params : list param) (w : world) :
  New key opts = (c, Some e) ->
  get c path params w = Panic
  /\ (forall (zero_T : Zero T) (result_R : result T R),
         getResult c path params w = Panic)
  /\ getResultPaginated c path params w = Panic.
Proof.
  unfold New. destruct (apply_options opts options_zero); [|discriminate].
  intros [= <- _].
  assert (Hget : get Client_zero path params w = Panic) by reflexivity.
  unfold getResult, getResultPaginated, bind. rewrite Hget. splits; reflexivity.
Qed.

(** X10.  [getResult] makes one round trip.  On a client that is ready
    and a URL that parses, an answer that delivers a body that decodes
    gives the [Result()] of the decoded value and the nil error, after one
    request to that URL; and whatever the client, a nil error means that
    one answer was used, that it delivered a body, and that the value
    returned is the [Result()] of what the body decoded to from the zero
    value. *)
Theorem getResult_round_trip {zero_T : Zero T} {result_R : result T R} :
  (forall (apikey h : string) (rl : Limiter) (hc : http_Client_ptr)
          (path : list string) (params : list param) (w : world)
          (resp : round_trip) (rest : list round_trip) (data : list byte) (r : R),
      http_NewRequest_err (url_of h path params) = None ->
      pending w = resp :: rest ->
      delivers resp data ->
      json_Unmarshal data zero = inr r ->
      getResult (ready_client apikey h rl hc) path params w
      = Ret (result_Result r, None)
            (after_round_trip w (request_to apikey h (url_of h path params)) rest))
  /\ (forall (c : Client) (path : list string) (params : list param)
             (w w' : world) (v : T),
         getResult c path params w = Ret (v, None) w' ->
         exists resp data r,
           pending w = resp :: pending w'
           /\ delivers resp data
           /\ json_Unmarshal data zero = inr r
           /\ v = result_Result r).
Proof.
  split.
  - intros apikey h rl hc path params w resp rest data r Hurl Hpending Hresp Hjson.
    unfold getResult, bind.
    rewrite get_ready, buildUrlWithParameters_ready, Hurl, Hpending.
    now rewrite (respond_delivers _ _ Hresp), Hjson.
  - intros c path params w w' v. unfold getResult, bind.
    destruct (get c path params w) as [[data [e0|]] w1| |] eqn:Hget; try discriminate.
    destruct (json_Unmarshal data zero) as [e0|r] eqn:Hjson; [discriminate|].
    intros [= <- <-]. apply get_consumes in Hget.
    destruct Hget as (resp & Hpending & Hresp).
    now exists resp, data, r.
Qed.

End EngineOnAnyClient.

(* ===================================================================== *)
(** * Further properties: a script that ends before an empty page *)
(* ===================================================================== *)

Section PaginatorNeedsEmptyPage.
Context {std : Std} {T R : Type}.
Context {zero_R : Zero R} {json_R : JSON R} {paginated_R : resultPaginated T R}.
Variables (apikey h : string) (rl : Limiter) (hc : http_Client_ptr).
Variables (path : list string) (params : list param).

Lemma paginate_starves (nexts : list R) :
  forall (r : R) (answers : list round_trip) (log : list Request) (n fuel : nat)
         (acc : list T),
    fetched r answers nexts ->
    Forall (fun p => Result p <> []) (r :: nexts) ->
    Forall (fun p => http_NewRequest_err (continuation_url h path params (Token p)) = None)
           (r :: nexts) ->
    length answers < fuel ->
    paginate fuel (ready_client apikey h rl hc) (path ++ ["continuation"])
             (params ++ [continuation_param (Token r)]) r acc
             {| pending := answers; sent := log; taken := n |} = Starved.
Proof.
  induction nexts as [|p nexts IH];
    intros r answers log n fuel acc Hfetched Hne Hurls Hfuel.
  - inversion Hfetched; subst. inversion Hne as [|? ? Hr _]; subst.
    inversion Hurls as [|? ? Hu _]; subst.
    destruct fuel as [|fuel]; [simpl in Hfuel; lia|].
    cbn [paginate]. destruct (Result r) as [|t ts] eqn:Hres; [congruence|].
    unfold bind at 1.
    rewrite get_ready, buildUrlWithParameters_ready.
    fold (continuation_url h path params (Token r)). now rewrite Hu.
  - inversion Hfetched as [|r0 resp data r' answers' pages' Hresp Hjson Hrest]; subst.
    inversion Hne as [|? ? Hr Hne']; subst.
    inversion Hurls as [|? ? Hu Hurls']; subst.
    destruct fuel as [|fuel]; [simpl in Hfuel; lia|].
    rewrite (paginate_step apikey h rl hc path params fuel r p acc _ resp answers' data);
      auto.
    unfold after_round_trip. cbn [pending sent taken].
    apply IH; auto. simpl in Hfuel. lia.
Qed.

(** X11.  The loop of [getResultPaginated] has no bound of its own: only
    an empty page, or a failure, ends it.  On a script whose answers all
    deliver pages that are not empty (and whose URLs parse), however long
    it is, the call has not returned when the script is used up: it goes to
    the transport once more. *)
Theorem getResultPaginated_needs_empty_page (pages : list R)
        (answers : list round_trip) (log : list Request) (n : nat) :
  fetched zero answers pages ->
  Forall (fun p => Result p <> []) pages ->
  http_NewRequest_err (url_of h path params) = None ->
  Forall (fun p => http_NewRequest_err (continuation_url h path params (Token p)) = None)
         pages ->
  getResultPaginated (ready_client apikey h rl hc) path params
                     {| pending := answers; sent := log; taken := n |} = Starved.
Proof.
  intros Hfetched Hne Hurl Hurls.
  unfold getResultPaginated. unfold bind at 1.
  rewrite get_ready, buildUrlWithParameters_ready, Hurl.
  inversion Hfetched as [|r0 resp data r1 answers' nexts Hresp Hjson Hrest]; subst;
    [reflexivity|].
  cbn [pending]. rewrite (respond_delivers _ _ Hresp), Hjson.
  unfold after_round_trip. cbn [pending sent taken].
  apply paginate_starves with (nexts := nexts); auto.
Qed.

End PaginatorNeedsEmptyPage.

(* ===================================================================== *)
(** * Further properties: the hand-written loops *)
(* ===================================================================== *)

Section LegacyRepliesFacts.
Context {std : Std} {Tweet : Type}.
Context {json_tweets : JSON (getUserTweetsResponse Tweet)}
        {json_replies : JSON (getTweetRepliesResponse Tweet)}.
Variables (apikey h : string) (rl : Limiter) (hc : http_Client_ptr).
Variables (tweetId : string).
Let c : Client := ready_client apikey h rl hc.
Let params : list param := [ {| key := "tweet_id"; value := any_string tweetId |} ].
Local Abbreviation replies_page := (getTweetRepliesResponse Tweet).

Lemma legacy_replies_loop_stop (fuel : nat) (ps : list param) (replies : list Tweet)
      (w : world) :
  Legacy.GetTweetReplies_loop fuel c "" ps replies w = Ret (replies, None) w.
Proof. destruct fuel; reflexivity. Qed.

Lemma legacy_replies_loop_step (fuel : nat) (r r' : replies_page) (replies : list Tweet)
      (w : world) (resp : round_trip) (rest : list round_trip) (data : list byte) :
  replies_ContinuationToken r <> "" ->
  http_NewRequest_err
    (legacy_continuation_url h ["tweet"; "replies"] params (replies_ContinuationToken r))
  = None ->
  pending w = resp :: rest ->
  delivers resp data ->
  json_Unmarshal data (zero : replies_page) = inr r' ->
  Legacy.GetTweetReplies_loop (S fuel) c (replies_ContinuationToken r)
    (params ++ [continuation_param (replies_ContinuationToken r)]) replies w =
  Legacy.GetTweetReplies_loop fuel c (replies_ContinuationToken r')
    (params ++ [continuation_param (replies_ContinuationToken r')])
    (replies ++ Replies r')
    (after_round_trip
       w (legacy_continuation_request apikey h ["tweet"; "replies"] params r) rest).
Proof.
  intros Htok Hurl Hpending Hresp Hjson. cbn [Legacy.GetTweetReplies_loop].
  apply String.eqb_neq in Htok. rewrite Htok.
  unfold bind at 1. unfold c.
  rewrite legacy_get_ready, legacy_buildUrlWithParameters_ready.
  change (legacy_url_of h _ _)
    with (legacy_continuation_url h ["tweet"; "replies"] params
                                  (replies_ContinuationToken r)).
  rewrite Hurl, Hpending, (respond_delivers _ _ Hresp), Hjson.
  unfold bind, deref. rewrite replace_last_app. reflexivity.
Qed.

Lemma legacy_replies_loop_run (front : list replies_page) :
  forall (r last : replies_page) (nexts : list replies_page)
         (answers rest : list round_trip)
         (log : list Request) (n fuel : nat) (replies : list Tweet),
    r :: nexts = front ++ [last] ->
    fetched_fresh answers nexts ->
    Forall (fun p => replies_ContinuationToken p <> "") front ->
    replies_ContinuationToken last = "" ->
    Forall (fun p => http_NewRequest_err
                       (legacy_continuation_url h ["tweet"; "replies"] params
                          (replies_ContinuationToken p)) = None)
           front ->
    length answers < fuel ->
    Legacy.GetTweetReplies_loop fuel c (replies_ContinuationToken r)
      (params ++ [continuation_param (replies_ContinuationToken r)]) replies
      {| pending := answers ++ rest; sent := log; taken := n |} =
    Ret (replies ++ concat (map Replies nexts), None)
        {| pending := rest;
           sent := log ++ map (legacy_continuation_request
                                 apikey h ["tweet"; "replies"] params) front;
           taken := n + length front |}.
Proof.
  induction front as [|f front IH];
    intros r last nexts answers rest log n fuel replies Hseq Hfetched Hne Hlast Hurls Hfuel.
  - simpl in Hseq. injection Hseq as -> ->. inversion Hfetched; subst.
    rewrite Hlast, legacy_replies_loop_stop. simpl.
    rewrite !app_nil_r, Nat.add_0_r. reflexivity.
  - simpl in Hseq. injection Hseq as Hr Hn. subst f nexts.
    inversion Hfetched as [|resp data r' answers' pages' Hresp Hjson Hrest Ha Hp];
      [destruct front; discriminate|]. subst answers.
    destruct fuel as [|fuel]; [simpl in Hfuel; lia|].
    inversion Hne; subst. inversion Hurls; subst.
    cbn [app].
    rewrite (legacy_replies_loop_step fuel r r' replies _ resp (answers' ++ rest) data);
      auto.
    unfold after_round_trip. cbn [pending sent taken].
    rewrite (IH r' last pages' answers' rest _ (S n) fuel (replies ++ Replies r'));
      auto; [|simpl in Hfuel; lia].
    simpl. rewrite <- !app_assoc. simpl. do 2 f_equal. lia.
Qed.

(** The whole hand-written [GetTweetReplies] on such a script. *)
Lemma legacy_GetTweetReplies_run (pages : list replies_page) (last : replies_page)
      (answers rest : list round_trip) (log : list Request) (n : nat) :
  fetched_fresh answers (pages ++ [last]) ->
  Forall (fun p => replies_ContinuationToken p <> "") pages ->
  replies_ContinuationToken last = "" ->
  http_NewRequest_err (legacy_url_of h ["tweet"; "replies"] params) = None ->
  Forall (fun p => http_NewRequest_err
                     (legacy_continuation_url h ["tweet"; "replies"] params
                        (replies_ContinuationToken p)) = None)
         pages ->
  Legacy.GetTweetReplies c tweetId
                         {| pending := answers ++ rest; sent := log; taken := n |} =
  Ret (concat (map Replies (pages ++ [last])), None)
      {| pending := rest;
         sent := log ++ request_to apikey h (legacy_url_of h ["tweet"; "replies"] params)
                     :: map (legacy_continuation_request
                               apikey h ["tweet"; "replies"] params) pages;
         taken := n + S (length pages) |}.
Proof.
  intros Hfetched Hne Hlast Hurl Hurls.
  inversion Hfetched as [|resp data r1 answers' nexts Hresp Hjson Hrest Ha Hp];
    [destruct pages; discriminate|]. subst.
  unfold Legacy.GetTweetReplies. fold params. unfold bind at 1. unfold c at 1.
  rewrite legacy_get_ready, legacy_buildUrlWithParameters_ready, Hurl.
  cbn [pending app].
  rewrite (respond_delivers _ _ Hresp), Hjson.
  unfold after_round_trip. cbn [pending sent taken].
  rewrite (legacy_replies_loop_run pages r1 last nexts answers' rest _ (S n) _
                                   (Replies r1)); auto.
  - simpl. rewrite <- app_assoc. simpl. do 2 f_equal. lia.
  - simpl. rewrite length_app. lia.
Qed.

(** X12.  The hand-written [GetTweetReplies] goes by the token and keeps
    the first page: on a script that delivers pages whose tokens are not
    empty and then a page whose token is empty, whatever their items, it
    returns the replies of all these pages in order, the first and the
    last included, and the nil error; it has sent one request for each
    page, the first to the URL of the tweet, the others to the
    "continuation" path with the token of the page before put in
    unescaped, and it leaves the rest of the script. *)
Theorem legacy_GetTweetReplies_all_pages (pages : list replies_page) (last : replies_page)
        (answers rest : list round_trip) (log : list Request) (n : nat) :
  fetched_fresh answers (pages ++ [last]) ->
  Forall (fun p => replies_ContinuationToken p <> "") pages ->
  replies_ContinuationToken last = "" ->
  http_NewRequest_err (legacy_url_of h ["tweet"; "replies"] params) = None ->
  Forall (fun p => http_NewRequest_err
                     (legacy_continuation_url h ["tweet"; "replies"] params
                        (replies_ContinuationToken p)) = None)
         pages ->
  exists w',
    Legacy.GetTweetReplies c tweetId
                           {| pending := answers ++ rest; sent := log; taken := n |}
    = Ret (concat (map Replies pages) ++ Replies last, None) w'
    /\ pending w' = rest
    /\ taken w' = n + length answers
    /\ sent w' = log ++ request_to apikey h (legacy_url_of h ["tweet"; "replies"] params)
                     :: map (fun p =>
                               request_to apikey h
                                 (legacy_url_of h ["tweet"; "replies"; "continuation"]
                                    (params ++ [continuation_param
                                                  (replies_ContinuationToken p)])))
                            pages.
Proof.
  intros Hf Hne Hlast Hurl Hurls.
  pose proof (legacy_GetTweetReplies_run pages last answers rest log n
                                         Hf Hne Hlast Hurl Hurls) as Hrun.
  rewrite map_app, concat_app in Hrun. simpl in Hrun. rewrite app_nil_r in Hrun.
  eexists. split; [exact Hrun|].
  assert (Hlen : length answers = length (pages ++ [last])).
  { clear - Hf. induction Hf; simpl; congruence. }
  rewrite length_app in Hlen. simpl in Hlen.
  cbn [pending sent taken]. splits; auto. lia.
Qed.


End LegacyRepliesFacts.

Section LegacyOnAnyClient.
Context {std : Std} {Tweet : Type}.
Context {json_tweets : JSON (getUserTweetsResponse Tweet)}
        {json_replies : JSON (getTweetRepliesResponse Tweet)}.

(** What a return of a hand-written call tells: the requests it issued,
    and for an error the nil list and where the call failed. *)
Local Abbreviation legacy_report R label c w w' res err :=
  (issued c w w'
   /\ forall e : error, err = Some e -> res = @nil Tweet /\ call_failure (R := R) label e).

Lemma legacy_report_stop (R : Type) (json_R : JSON R) (label : string)
      (c : Client) (w : world) (res : list Tweet) :
  legacy_report R label c w w res (@None error).
Proof. split; [apply issued_refl | discriminate]. Qed.

Lemma legacy_report_fetch_failed (R : Type) (json_R : JSON R) (label : string)
      (c : Client) (url_for : string -> string) (w w1 : world)
      (data : list byte) (e0 : error) :
  fetch_report c url_for w w1 (data, Some e0) ->
  legacy_report R label c w w1 (@nil Tweet) (Some (Errorf_w label e0)).
Proof.
  intros Hget. split.
  - eapply issued_after_fetch; [exact Hget | apply issued_refl].
  - intros e [= <-]. split; [reflexivity|]. left. exists e0.
    split; [|reflexivity]. eapply fetch_report_failure, Hget.
Qed.

Lemma legacy_report_decode_failed (R : Type) (json_R : JSON R) (label : string)
      (c : Client) (url_for : string -> string) (w w1 : world)
      (data : list byte) (target : R) (e0 : error) :
  fetch_report c url_for w w1 (data, None) ->
  json_Unmarshal data target = inl e0 ->
  legacy_report R label c w w1 (@nil Tweet) (Some (Errorf_w "unmarshal response" e0)).
Proof.
  intros Hget Hjson. split.
  - eapply issued_after_fetch; [exact Hget | apply issued_refl].
  - intros e [= <-]. split; [reflexivity|]. right. now exists data, target, e0.
Qed.

Lemma legacy_GetUserTweets_loop_report (fuel : nat) :
  forall (c : Client) (token : string) (ps : list param) (tweets : list Tweet)
         (w w' : world) (res : list Tweet) (err : option error),
    Legacy.GetUserTweets_loop fuel c token ps tweets w = Ret (res, err) w' ->
    legacy_report (getUserTweetsResponse Tweet) "get user" c w w' res err.
Proof.
  induction fuel as [|fuel IH]; intros c token ps tweets w w' res err;
    cbn [Legacy.GetUserTweets_loop]; destruct (token =? "")%string;
    try discriminate; try (intros [= <- <- <-]; now apply legacy_report_stop).
  unfold bind at 1.
  destruct (Legacy.get c ["user"; "tweets"; "continuation"] ps w)
    as [[data err0] w1| |] eqn:Hget; try discriminate.
  apply legacy_get_returns in Hget.
  destruct err0 as [e0|].
  { intros [= <- <- <-]. eapply legacy_report_fetch_failed, Hget. }
  destruct (json_Unmarshal data zero) as [e0|r] eqn:Hjson.
  { intros [= <- <- <-]. eapply legacy_report_decode_failed; eassumption. }
  unfold bind, deref.
  destruct (Legacy.replace_last ps _); [|discriminate].
  unfold ret. intros Hrun. apply IH in Hrun. destruct Hrun as [Hissued Herr].
  split; [|exact Herr].
  eapply issued_after_fetch; [exact Hget | exact Hissued].
Qed.

Lemma legacy_GetTweetReplies_loop_report (fuel : nat) :
  forall (c : Client) (token : string) (ps : list param) (replies : list Tweet)
         (w w' : world) (res : list Tweet) (err : option error),
    Legacy.GetTweetReplies_loop fuel c token ps replies w = Ret (res, err) w' ->
    legacy_report (getTweetRepliesResponse Tweet) "get tweet replies" c w w' res err.
Proof.
  induction fuel as [|fuel IH]; intros c token ps replies w w' res err;
    cbn [Legacy.GetTweetReplies_loop]; destruct (token =? "")%string;
    try discriminate; try (intros [= <- <- <-]; now apply legacy_report_stop).
  unfold bind at 1.
  destruct (Legacy.get c ["tweet"; "replies"; "continuation"] ps w)
    as [[data err0] w1| |] eqn:Hget; try discriminate.
  apply legacy_get_returns in Hget.
  destruct err0 as [e0|].
  { intros [= <- <- <-]. eapply legacy_report_fetch_failed, Hget. }
  destruct (json_Unmarshal data zero) as [e0|r] eqn:Hjson.
  { intros [= <- <- <-]. eapply legacy_report_decode_failed; eassumption. }
  unfold bind, deref.
  destruct (Legacy.replace_last ps _); [|discriminate].
  unfold ret. intros Hrun. apply IH in Hrun. destruct Hrun as [Hissued Herr].
  split; [|exact Herr].
  eapply issued_after_fetch; [exact Hget | exact Hissued].
Qed.

(** X14.  The two hand-written paginated calls, on any client: a call
    that returns has taken one admission and used one answer for each
    request it sent, each a GET with the two headers of the client; an
    error comes with the nil list, whatever had been gathered, and is
    the label of the call ("get user", "get tweet replies") around a
    failure of the fetch, or "unmarshal response" around what the decoder
    said. *)
Theorem legacy_calls_report :
  (forall (c : Client) (userId : string) (opts : list getUserTweetsOption)
          (w w' : world) (res : list Tweet) (err : option error),
      Legacy.GetUserTweets c userId opts w = Ret (res, err) w' ->
      issued c w w'
      /\ forall e, err = Some e ->
                   res = []
                   /\ call_failure (R := getUserTweetsResponse Tweet) "get user" e)
  /\ (forall (c : Client) (tweetId : string)
             (w w' : world) (res : list Tweet) (err : option error),
         Legacy.GetTweetReplies c tweetId w = Ret (res, err) w' ->
         issued c w w'
         /\ forall e, err = Some e ->
                      res = []
                      /\ call_failure (R := getTweetRepliesResponse Tweet)
                                      "get tweet replies" e).
Proof.
  split.
  - intros c userId opts w w' res err. unfold Legacy.GetUserTweets, bind.
    destruct (Legacy.get c ["user"; "tweets"] (GetUserTweets_params userId opts) w)
      as [[data err0] w1| |] eqn:Hget; try discriminate.
    apply legacy_get_returns in Hget.
    destruct err0 as [e0|].
    { intros [= <- <- <-]. eapply legacy_report_fetch_failed, Hget. }
    destruct (json_Unmarshal data zero) as [e0|r] eqn:Hjson.
    { intros [= <- <- <-]. eapply legacy_report_decode_failed; eassumption. }
    intros Hrun. apply legacy_GetUserTweets_loop_report in Hrun.
    destruct Hrun as [Hissued Herr]. split; [|exact Herr].
    eapply issued_after_fetch; [exact Hget | exact Hissued].
  - intros c tweetId w w' res err. unfold Legacy.GetTweetReplies, bind.
    destruct (Legacy.get c ["tweet"; "replies"]
                         [ {| key := "tweet_id"; value := any_string tweetId |} ] w)
      as [[data err0] w1| |] eqn:Hget; try discriminate.
    apply legacy_get_returns in Hget.
    destruct err0 as [e0|].
    { intros [= <- <- <-]. eapply legacy_report_fetch_failed, Hget. }
    destruct (json_Unmarshal data zero) as [e0|r] eqn:Hjson.
    { intros [= <- <- <-]. eapply legacy_report_decode_failed; eassumption. }
    intros Hrun. apply legacy_GetTweetReplies_loop_report in Hrun.
    destruct Hrun as [Hissued Herr]. split; [|exact Herr].
    eapply issued_after_fetch; [exact Hget | exact Hissued].
Qed.

(** X15.  The hand-written [GetUserTweets] never returns the tweets of
    the first page: on a script that delivers pages whose tokens are not
    empty and then a page whose token is empty, it returns the tweets of
    all these pages but the first, in order, and the nil error, after one
    request for each page, the first to the URL of the user, the others to
    the "continuation" path with the token of the page before put in
    unescaped. *)
Theorem legacy_GetUserTweets_drops_first_page
        (apikey h : string) (rl : Limiter) (hc : http_Client_ptr)
        (userId : string) (opts : list getUserTweetsOption)
        (pages : list (getUserTweetsResponse Tweet)) (last : getUserTweetsResponse Tweet)
        (answers rest : list round_trip) (log : list Request) (n : nat) :
  fetched_fresh answers (pages ++ [last]) ->
  Forall (fun p => tweets_ContinuationToken p <> "") pages ->
  tweets_ContinuationToken last = "" ->
  http_NewRequest_err
    (legacy_url_of h ["user"; "tweets"] (GetUserTweets_params userId opts)) = None ->
  Forall (fun p => http_NewRequest_err
                     (legacy_continuation_url
                        h ["user"; "tweets"] (GetUserTweets_params userId opts)
                        (tweets_ContinuationToken p)) = None)
         pages ->
  exists w',
    Legacy.GetUserTweets (ready_client apikey h rl hc) userId opts
                         {| pending := answers ++ rest; sent := log; taken := n |}
    = Ret (concat (map tweets_Results (tl (pages ++ [last]))), None) w'
    /\ pending w' = rest
    /\ taken w' = n + length answers
    /\ sent w' =
       log ++ request_to apikey h
                (legacy_url_of h ["user"; "tweets"] (GetUserTweets_params userId opts))
           :: map (fun p =>
                     request_to apikey h
                       (legacy_url_of h ["user"; "tweets"; "continuation"]
                          (GetUserTweets_params userId opts
                             ++ [continuation_param (tweets_ContinuationToken p)])))
                  pages.
Proof.
  intros Hf Hne Hlast Hurl Hurls.
  pose proof (legacy_GetUserTweets_run apikey h rl hc userId opts pages last
                                       answers rest log n Hf Hne Hlast Hurl Hurls) as Hrun.
  eexists. split; [exact Hrun|].
  assert (Hlen : length answers = length (pages ++ [last])).
  { clear - Hf. induction Hf; simpl; congruence. }
  rewrite length_app in Hlen. simpl in Hlen.
  cbn [pending sent taken]. splits; auto. lia.
Qed.

End LegacyOnAnyClient.

(* ===================================================================== *)
(** * Further properties: the endpoints that return one value *)
(* ===================================================================== *)

Section SingleResultEndpoints.
Context {std : Std}.
Context {Tweet User : Type} {zero_Tweet : Zero Tweet} {zero_User : Zero User}.
Context {json_username : JSON getUsernameResponse}
        {json_User : JSON User} {json_Tweet : JSON Tweet}.
Variables (apikey h : string) (rl : Limiter) (hc : http_Client_ptr).
Let c : Client := ready_client apikey h rl hc.

(** X16.  What the four endpoints that return one value put on the wire
    and hand back, on a client that is ready: one GET to
    [/user/username?user_id=], [/user/details?user_id=],
    [/user/details?username=] or [/tweet/details?tweet_id=] under the host,
    followed by the argument escaped; when the answer delivers a body that
    decodes, [GetUsername] returns the username field of the decoded
    response, the three others the decoded value itself. *)
Theorem single_result_endpoints (w : world) (resp : round_trip)
        (rest : list round_trip) (data : list byte) :
  pending w = resp :: rest ->
  delivers resp data ->
  let answered url := after_round_trip w (request_to apikey h url) rest in
  (forall (userId : string) (r : getUsernameResponse),
      let url := ("https://" ++ h ++ "/user/username?user_id="
                             ++ url_QueryEscape userId)%string in
      http_NewRequest_err url = None ->
      json_Unmarshal data zero = inr r ->
      GetUsername c userId w = Ret (Username r, None) (answered url))
  /\ (forall (userId : string) (user : User),
         let url := ("https://" ++ h ++ "/user/details?user_id="
                                ++ url_QueryEscape userId)%string in
         http_NewRequest_err url = None ->
         json_Unmarshal data zero = inr user ->
         GetUser c userId w = Ret (user, None) (answered url))
  /\ (forall (username : string) (user : User),
         let url := ("https://" ++ h ++ "/user/details?username="
                                ++ url_QueryEscape username)%string in
         http_NewRequest_err url = None ->
         json_Unmarshal data zero = inr user ->
         GetUserByUsername c username w = Ret (user, None) (answered url))
  /\ (forall (tweetId : string) (tweet : Tweet),
         let url := ("https://" ++ h ++ "/tweet/details?tweet_id="
                                ++ url_QueryEscape tweetId)%string in
         http_NewRequest_err url = None ->
         json_Unmarshal data zero = inr tweet ->
         GetTweetDetails c tweetId w = Ret (tweet, None) (answered url)).
Proof.
  intros Hpending Hresp answered.
  assert (Hrun : forall (T R : Type) (zero_R : Zero R) (json_R : JSON R)
                        (zero_T : Zero T) (result_R : result T R)
                        (path : list string) (params : list param) (url : string) (r : R),
             url_of h path params = url ->
             http_NewRequest_err url = None ->
             json_Unmarshal data zero = inr r ->
             getResult c path params w = Ret (result_Result r, None) (answered url)).
  { intros T R zero_R json_R zero_T result_R path params url r <- Hurl Hjson.
    unfold getResult, bind, c.
    rewrite get_ready, buildUrlWithParameters_ready, Hurl, Hpending.
    now rewrite (respond_delivers _ _ Hresp), Hjson. }
  splits; intros arg r url Hurl Hjson;
    cbv delta [GetUsername GetUser GetUserByUsername GetTweetDetails];
    (refine (Hrun _ _ _ _ _ _ _ _ _ r _ Hurl Hjson));
    unfold url, url_of, query_string, pair_text; cbn;
    now rewrite string_app_nil_r.
Qed.

End SingleResultEndpoints.

(* ===================================================================== *)
(** * Further properties: the other hand-written calls *)
(* ===================================================================== *)

Section TokenLoopFacts.
Context {std : Std} {T R : Type} {zero_R : Zero R} {json_R : JSON R}.
Variables (items : R -> list T) (token_of : R -> string).
Variables (label : string) (path : list string).
Variables (apikey h : string) (rl : Limiter) (hc : http_Client_ptr).
Variables (params : list param).
Let c : Client := ready_client apikey h rl hc.

Lemma token_loop_stop (fuel : nat) (ps : list param) (acc : list T) (w : world) :
  token_loop items token_of label path fuel c "" ps acc w = Ret (acc, None) w.
Proof. destruct fuel; reflexivity. Qed.

(** The shared loop on a script that holds the pages up to the first one
    with an empty token. *)
Lemma token_loop_run (front : list R) :
  forall (r last : R) (nexts : list R) (answers rest : list round_trip)
         (log : list Request) (n fuel : nat) (acc : list T),
    r :: nexts = front ++ [last] ->
    fetched_fresh answers nexts ->
    Forall (fun p => token_of p <> "") front ->
    token_of last = "" ->
    Forall (fun p => http_NewRequest_err
                       (legacy_url_of h path (params ++ [continuation_param (token_of p)]))
                     = None) front ->
    length answers < fuel ->
    token_loop items token_of label path fuel c (token_of r)
               (params ++ [continuation_param (token_of r)]) acc
               {| pending := answers ++ rest; sent := log; taken := n |} =
    Ret (acc ++ concat (map items nexts), None)
        {| pending := rest;
           sent := log ++ map (fun p =>
                                 request_to apikey h
                                   (legacy_url_of h path
                                      (params ++ [continuation_param (token_of p)])))
                              front;
           taken := n + length front |}.
Proof.
  induction front as [|f front IH];
    intros r last nexts answers rest log n fuel acc Hseq Hfetched Hne Hlast Hurls Hfuel.
  - simpl in Hseq. injection Hseq as -> ->. inversion Hfetched; subst.
    rewrite Hlast, token_loop_stop. simpl.
    rewrite !app_nil_r, Nat.add_0_r. reflexivity.
  - simpl in Hseq. injection Hseq as Hr Hn. subst f nexts.
    inversion Hfetched as [|resp data r' answers' pages' Hresp Hjson Hrest Ha Hp];
      [destruct front; discriminate|]. subst answers.
    destruct fuel as [|fuel]; [simpl in Hfuel; lia|].
    inversion Hne as [|? ? Htok Hne']; subst.
    inversion Hurls as [|? ? Hurl Hurls']; subst.
    cbn [token_loop app].
    apply String.eqb_neq in Htok. rewrite Htok.
    unfold bind at 1. unfold c.
    rewrite legacy_get_ready, legacy_buildUrlWithParameters_ready, Hurl.
    cbn [pending]. rewrite (respond_delivers _ _ Hresp), Hjson.
    unfold bind, deref. rewrite replace_last_app. unfold ret, after_round_trip.
    cbn [pending sent taken]. fold c.
    change {| key := "continuation_token"; value := any_string (token_of r') |}
      with (continuation_param (token_of r')).
    rewrite (IH r' last pages' answers' rest _ (S n) fuel (acc ++ items r'));
      auto; [|simpl in Hfuel; lia].
    simpl. rewrite <- !app_assoc. simpl. do 2 f_equal. lia.
Qed.

End TokenLoopFacts.

Section LegacyLoopShapes.
Context {std : Std} {User : Type}.
Context {json_follows : JSON (getUserFollowsResponse User)}
        {json_favorites : JSON (Legacy.getUserFavoritesResponse User)}.

Ltac loop_shape IH :=
  unfold bind;
  match goal with
  | |- context [Legacy.get ?c ?p ?ps ?w] =>
      destruct (Legacy.get c p ps w) as [[data [e|]] w1| |]; try reflexivity
  end;
  match goal with
  | |- context [json_Unmarshal ?d zero] =>
      destruct (json_Unmarshal d zero); try reflexivity
  end;
  match goal with
  | |- context [Legacy.replace_last ?ps ?p] =>
      destruct (Legacy.replace_last ps p); simpl; [apply IH | reflexivity]
  end.

Lemma GetUserFollowing_loop_shape (fuel : nat) :
  forall (c : Client) (token : string) (ps : list param) (acc : list User) (w : world),
    Legacy.GetUserFollowing_loop fuel c token ps acc w
    = token_loop follows_Results follows_ContinuationToken "get user"
                 ["user"; "following"; "continuation"] fuel c token ps acc w.
Proof.
  induction fuel as [|fuel IH]; intros c token ps acc w;
    cbn [Legacy.GetUserFollowing_loop token_loop];
    destruct (token =? "")%string; try reflexivity.
  loop_shape IH.
Qed.

Lemma GetUserFollowers_loop_shape (fuel : nat) :
  forall (c : Client) (token : string) (ps : list param) (acc : list User) (w : world),
    Legacy.GetUserFollowers_loop fuel c token ps acc w
    = token_loop follows_Results follows_ContinuationToken "get user"
                 ["user"; "followers"; "continuation"] fuel c token ps acc w.
Proof.
  induction fuel as [|fuel IH]; intros c token ps acc w;
    cbn [Legacy.GetUserFollowers_loop token_loop];
    destruct (token =? "")%string; try reflexivity.
  loop_shape IH.
Qed.

Lemma GetTweetUserFavorites_loop_shape (fuel : nat) :
  forall (c : Client) (token : string) (ps : list param) (acc : list User) (w : world),
    Legacy.GetTweetUserFavorites_loop fuel c token ps acc w
    = token_loop Legacy.Favorites Legacy.Favorites_ContinuationToken "get tweet favorites"
                 ["tweet"; "favoriters"; "continuation"] fuel c token ps acc w.
Proof.
  induction fuel as [|fuel IH]; intros c token ps acc w;
    cbn [Legacy.GetTweetUserFavorites_loop token_loop];
    destruct (token =? "")%string; try reflexivity.
  loop_shape IH.
Qed.

Variables (apikey h : string) (rl : Limiter) (hc : http_Client_ptr).
Let c : Client := ready_client apikey h rl hc.
Local Abbreviation follows_page := (getUserFollowsResponse User).
Local Abbreviation favorites_page := (Legacy.getUserFavoritesResponse User).

Lemma fetched_fresh_length {R : Type} {zero_R : Zero R} {json_R : JSON R}
      (answers : list round_trip) (pages : list R) :
  fetched_fresh answers pages -> length answers = length pages.
Proof. induction 1; simpl; congruence. Qed.

(** The parameters of the two calls for the lists of a user. *)
Let follows_params (userId : string) : list param :=
  [ {| key := "user_id"; value := any_string userId |};
    {| key := "limit"; value := any_int _pageLimit |} ].

Lemma legacy_GetUserFollowing_run (userId : string)
      (pages : list follows_page) (last : follows_page)
      (answers rest : list round_trip) (log : list Request) (n : nat) :
  fetched_fresh answers (pages ++ [last]) ->
  Forall (fun p => follows_ContinuationToken p <> "") pages ->
  follows_ContinuationToken last = "" ->
  http_NewRequest_err (legacy_url_of h ["user"; "following"] (follows_params userId))
  = None ->
  Forall (fun p => http_NewRequest_err
                     (legacy_url_of h ["user"; "following"; "continuation"]
                        (follows_params userId
                           ++ [continuation_param (follows_ContinuationToken p)]))
                   = None) pages ->
  Legacy.GetUserFollowing c userId
                          {| pending := answers ++ rest; sent := log; taken := n |} =
  Ret (concat (map follows_Results (tl (pages ++ [last]))), None)
      {| pending := rest;
         sent := log ++ request_to apikey h
                          (legacy_url_of h ["user"; "following"] (follows_params userId))
                     :: map (fun p =>
                               request_to apikey h
                                 (legacy_url_of h ["user"; "following"; "continuation"]
                                    (follows_params userId
                                       ++ [continuation_param
                                             (follows_ContinuationToken p)])))
                            pages;
         taken := n + S (length pages) |}.
Proof.
  intros Hfetched Hne Hlast Hurl Hurls.
  inversion Hfetched as [|resp data r1 answers' nexts Hresp Hjson Hrest Ha Hp];
    [destruct pages; discriminate|]. subst.
  unfold Legacy.GetUserFollowing. fold (follows_params userId).
  unfold bind at 1. unfold c at 1.
  rewrite legacy_get_ready, legacy_buildUrlWithParameters_ready, Hurl.
  cbn [pending app].
  rewrite (respond_delivers _ _ Hresp), Hjson.
  unfold after_round_trip. cbn [pending sent taken].
  rewrite GetUserFollowing_loop_shape.
  rewrite (token_loop_run follows_Results follows_ContinuationToken _ _
                          apikey h rl hc (follows_params userId)
                          pages r1 last nexts answers' rest _ (S n) _ []); auto.
  - simpl. rewrite <- app_assoc. simpl. do 2 f_equal. lia.
  - simpl. rewrite length_app. lia.
Qed.

Lemma legacy_GetUserFollowers_run (userId : string)
      (pages : list follows_page) (last : follows_page)
      (answers rest : list round_trip) (log : list Request) (n : nat) :
  fetched_fresh answers (pages ++ [last]) ->
  Forall (fun p => follows_ContinuationToken p <> "") pages ->
  follows_ContinuationToken last = "" ->
  http_NewRequest_err (legacy_url_of h ["user"; "followers"] (follows_params userId))
  = None ->
  Forall (fun p => http_NewRequest_err
                     (legacy_url_of h ["user"; "followers"; "continuation"]
                        (follows_params userId
                           ++ [continuation_param (follows_ContinuationToken p)]))
                   = None) pages ->
  Legacy.GetUserFollowers c userId
                          {| pending := answers ++ rest; sent := log; taken := n |} =
  Ret (concat (map follows_Results (tl (pages ++ [last]))), None)
      {| pending := rest;
         sent := log ++ request_to apikey h
                          (legacy_url_of h ["user"; "followers"] (follows_params userId))
                     :: map (fun p =>
                               request_to apikey h
                                 (legacy_url_of h ["user"; "followers"; "continuation"]
                                    (follows_params userId
                                       ++ [continuation_param
                                             (follows_ContinuationToken p)])))
                            pages;
         taken := n + S (length pages) |}.
Proof.
  intros Hfetched Hne Hlast Hurl Hurls.
  inversion Hfetched as [|resp data r1 answers' nexts Hresp Hjson Hrest Ha Hp];
    [destruct pages; discriminate|]. subst.
  unfold Legacy.GetUserFollowers. fold (follows_params userId).
  unfold bind at 1. unfold c at 1.
  rewrite legacy_get_ready, legacy_buildUrlWithParameters_ready, Hurl.
  cbn [pending app].
  rewrite (respond_delivers _ _ Hresp), Hjson.
  unfold after_round_trip. cbn [pending sent taken].
  rewrite GetUserFollowers_loop_shape.
  rewrite (token_loop_run follows_Results follows_ContinuationToken _ _
                          apikey h rl hc (follows_params userId)
                          pages r1 last nexts answers' rest _ (S n) _ []); auto.
  - simpl. rewrite <- app_assoc. simpl. do 2 f_equal. lia.
  - simpl. rewrite length_app. lia.
Qed.

(** X17.  The hand-written [GetUserFollowing] and [GetUserFollowers]
    never return the users of the first page either: on a script that
    delivers pages whose tokens are not empty and then a page whose token
    is empty, each returns the users of all these pages but the first, in
    order, and the nil error, after one request and one admission for each
    page. *)
Theorem legacy_follow_lists_drop_first_page (userId : string)
        (pages : list follows_page) (last : follows_page)
        (answers rest : list round_trip) (log : list Request) (n : nat) :
  fetched_fresh answers (pages ++ [last]) ->
  Forall (fun p => follows_ContinuationToken p <> "") pages ->
  follows_ContinuationToken last = "" ->
  let params := [ {| key := "user_id"; value := any_string userId |};
                  {| key := "limit"; value := any_int _pageLimit |} ] in
  let w := {| pending := answers ++ rest; sent := log; taken := n |} in
  let kept := concat (map follows_Results (tl (pages ++ [last]))) in
  (http_NewRequest_err (legacy_url_of h ["user"; "following"] params) = None ->
   Forall (fun p => http_NewRequest_err
                      (legacy_url_of h ["user"; "following"; "continuation"]
                         (params ++ [continuation_param (follows_ContinuationToken p)]))
                    = None) pages ->
   exists w',
     Legacy.GetUserFollowing c userId w = Ret (kept, None) w'
     /\ pending w' = rest
     /\ length (sent w') = length log + length answers
     /\ taken w' = n + length answers)
  /\ (http_NewRequest_err (legacy_url_of h ["user"; "followers"] params) = None ->
      Forall (fun p => http_NewRequest_err
                         (legacy_url_of h ["user"; "followers"; "continuation"]
                            (params ++ [continuation_param (follows_ContinuationToken p)]))
                       = None) pages ->
      exists w',
        Legacy.GetUserFollowers c userId w = Ret (kept, None) w'
        /\ pending w' = rest
        /\ length (sent w') = length log + length answers
        /\ taken w' = n + length answers).
Proof.
  intros Hf Hne Hlast params w kept.
  pose proof (fetched_fresh_length _ _ Hf) as Hlen.
  rewrite length_app in Hlen. simpl in Hlen.
  split; intros Hurl Hurls.
  - pose proof (legacy_GetUserFollowing_run userId pages last answers rest log n
                                            Hf Hne Hlast Hurl Hurls) as Hrun.
    eexists. split; [exact Hrun|].
    cbn [pending sent taken]. rewrite length_app. simpl. rewrite length_map.
    splits; auto; lia.
  - pose proof (legacy_GetUserFollowers_run userId pages last answers rest log n
                                            Hf Hne Hlast Hurl Hurls) as Hrun.
    eexists. split; [exact Hrun|].
    cbn [pending sent taken]. rewrite length_app. simpl. rewrite length_map.
    splits; auto; lia.
Qed.

(** X18.  The hand-written [GetTweetUserFavorites] keeps the first page:
    on a script that delivers pages whose tokens are not empty and then a
    page whose token is empty, it returns the users of all these pages in
    order, the first and the last included, and the nil error, after one
    request and one admission for each page. *)
Theorem legacy_GetTweetUserFavorites_all_pages (tweetId : string)
        (pages : list favorites_page) (last : favorites_page)
        (answers rest : list round_trip) (log : list Request) (n : nat) :
  fetched_fresh answers (pages ++ [last]) ->
  Forall (fun p => Legacy.Favorites_ContinuationToken p <> "") pages ->
  Legacy.Favorites_ContinuationToken last = "" ->
  let params := [ {| key := "tweet_id"; value := any_string tweetId |} ] in
  http_NewRequest_err (legacy_url_of h ["tweet"; "favoriters"] params) = None ->
  Forall (fun p => http_NewRequest_err
                     (legacy_url_of h ["tweet"; "favoriters"; "continuation"]
                        (params ++ [continuation_param
                                      (Legacy.Favorites_ContinuationToken p)]))
                   = None) pages ->
  exists w',
    Legacy.GetTweetUserFavorites c tweetId
                                 {| pending := answers ++ rest; sent := log; taken := n |}
    = Ret (concat (map Legacy.Favorites pages) ++ Legacy.Favorites last, None) w'
    /\ pending w' = rest
    /\ length (sent w') = length log + length answers
    /\ taken w' = n + length answers.
Proof.
  intros Hfetched Hne Hlast params Hurl Hurls.
  pose proof (fetched_fresh_length _ _ Hfetched) as Hlen.
  rewrite length_app in Hlen. simpl in Hlen.
  inversion Hfetched as [|resp data r1 answers' nexts Hresp Hjson Hrest Ha Hp];
    [destruct pages; discriminate|]. subst answers.
  unfold Legacy.GetTweetUserFavorites. fold params.
  unfold bind at 1. unfold c at 1.
  rewrite legacy_get_ready, legacy_buildUrlWithParameters_ready, Hurl.
  cbn [pending app].
  rewrite (respond_delivers _ _ Hresp), Hjson.
  unfold after_round_trip. cbn [pending sent taken].
  rewrite GetTweetUserFavorites_loop_shape.
  rewrite (token_loop_run Legacy.Favorites Legacy.Favorites_ContinuationToken _ _
                          apikey h rl hc params
                          pages r1 last nexts answers' rest _ (S n) _
                          (Legacy.Favorites r1)); auto.
  - eexists. split.
    + f_equal. f_equal.
      change (Legacy.Favorites r1 ++ concat (map Legacy.Favorites nexts))
        with (concat (map Legacy.Favorites (r1 :: nexts))).
      rewrite Hp, map_app, concat_app. simpl. now rewrite app_nil_r.
    + cbn [pending sent taken]. rewrite !length_app, length_map. simpl.
      simpl in Hlen. splits; auto; lia.
  - simpl. rewrite length_app. lia.
Qed.

End LegacyLoopShapes.

Lemma string_app_inv_head (a b c : string) : (a ++ b = a ++ c)%string -> b = c.
Proof.
  induction a as [|ch a IH]; simpl; [auto|]. intros [= H]. now apply IH.
Qed.

Section LegacyUsername.
Context {std : Std} {json_username : JSON getUsernameResponse}.
Variables (apikey h : string) (rl : Limiter) (hc : http_Client_ptr).

(** X19.  The hand-written [GetUsername] asks another endpoint than the
    generic one.  On a client that is ready, when the answer delivers a
    body that decodes, it has sent one GET to [/user/id?user_id=] followed
    by the id as it is, and returns the username field; the generic
    [GetUsername] asks [/user/username?user_id=] followed by the id
    escaped, and whatever the host and the id, the two URLs differ. *)
Theorem legacy_GetUsername_asks_user_id (userId : string) :
  let url := ("https://" ++ h ++ "/user/id?user_id=" ++ userId)%string in
  (forall (w : world) (resp : round_trip) (rest : list round_trip) (data : list byte)
          (r : getUsernameResponse),
      pending w = resp :: rest ->
      delivers resp data ->
      http_NewRequest_err url = None ->
      json_Unmarshal data zero = inr r ->
      Legacy.GetUsername (ready_client apikey h rl hc) userId w
      = Ret (Username r, None) (after_round_trip w (request_to apikey h url) rest))
  /\ url <> ("https://" ++ h ++ "/user/username?user_id=" ++ url_QueryEscape userId)%string.
Proof.
  intros url. split.
  - intros w resp rest data r Hpending Hresp Hurl Hjson.
    unfold Legacy.GetUsername, bind.
    rewrite legacy_get_ready, legacy_buildUrlWithParameters_ready.
    replace (legacy_url_of h ["user"; "id"]
                           [ {| key := "user_id"; value := any_string userId |} ])
      with url by (unfold url, legacy_url_of; cbn; string_assoc).
    rewrite Hurl, Hpending. now rewrite (respond_delivers _ _ Hresp), Hjson.
  - unfold url. intros Heq.
    apply (string_app_inv_head "https://") in Heq.
    apply string_app_inv_head in Heq. discriminate.
Qed.

End LegacyUsername.

(* ===================================================================== *)
(** * The further properties at sample inputs *)
(* ===================================================================== *)

(** A run whose second answer is a 500: two requests, two admissions, two
    answers used. *)
Lemma engine_requests_are_admitted_witness :
  issued sample_client
    (sample_world [sample_page "t" ["a"; "b"]%byte; Do_resp 500 (ReadAll_ok [])])
    {| pending := [];
       sent := [ request_to "KEY" "twitter154.p.rapidapi.com"
                   (url_of "twitter154.p.rapidapi.com" ["user"; "tweets"]
                           (GetUserTweets_params "44196397" []));
                 request_to "KEY" "twitter154.p.rapidapi.com"
                   (url_of "twitter154.p.rapidapi.com" ["user"; "tweets"; "continuation"]
                           (GetUserTweets_params "44196397" []
                              ++ [continuation_param "t"])) ];
       taken := 2 |}.
Proof.
  refine (proj2 (engine_requests_are_admitted
                   (std := sample_std) (T := byte) (json_R := sample_json))
                sample_client ["user"; "tweets"] (GetUserTweets_params "44196397" [])
                _ _ [] (Some (Errorf_w "get" (Errorf_status 500))) _).
  reflexivity.
Defined.

(** The error of that run. *)
Lemma engine_errors_are_labelled_witness :
  @nil byte = []
  /\ call_failure (json_R := sample_json) "get" (Errorf_w "get" (Errorf_status 500)).
Proof.
  refine (proj2 (engine_errors_are_labelled
                   (std := sample_std) (T := byte) (json_R := sample_json))
                sample_client ["user"; "tweets"] (GetUserTweets_params "44196397" [])
                (sample_world [sample_page "t" ["a"; "b"]%byte;
                               Do_resp 500 (ReadAll_ok [])])
                {| pending := [];
                   sent := [ request_to "KEY" "twitter154.p.rapidapi.com"
                               (url_of "twitter154.p.rapidapi.com" ["user"; "tweets"]
                                       (GetUserTweets_params "44196397" []));
                             request_to "KEY" "twitter154.p.rapidapi.com"
                               (url_of "twitter154.p.rapidapi.com"
                                       ["user"; "tweets"; "continuation"]
                                       (GetUserTweets_params "44196397" []
                                          ++ [continuation_param "t"])) ];
                   taken := 2 |}
                [] (Errorf_w "get" (Errorf_status 500)) _).
  reflexivity.
Defined.

(** A path segment with a tab in it: the script is left as it was. *)
Lemma rejected_url_costs_nothing_witness :
  getResultPaginated (std := sample_std) (json_R := sample_json)
    sample_client ["user"; sample_bad_segment] []
    (sample_world [sample_page "t" ["a"; "b"]%byte])
  = Ret ([], Some (Errorf_w "get"
                     (Errorf_w "create request"
                        (foreign "net/url: invalid control character in URL"))))
        (sample_world [sample_page "t" ["a"; "b"]%byte]).
Proof.
  refine (proj2 (rejected_url_costs_nothing
                   (std := sample_std) (T := byte) (json_R := sample_json)
                   sample_client
                   {| host := "twitter154.p.rapidapi.com";
                      rateLimit := Some ratelimit_NewUnlimited;
                      httpClient := Some http_DefaultClient |}
                   ["user"; sample_bad_segment] []
                   (foreign "net/url: invalid control character in URL")
                   (sample_world [sample_page "t" ["a"; "b"]%byte])
                   eq_refl eq_refl)).
Defined.

(** The client returned with a host that does not parse. *)
Lemma failed_New_client_panics_witness :
  getResultPaginated (std := sample_std) (json_R := sample_json)
    (fst (New "KEY" [WithHost (std := sample_std) sample_bad_host]))
    ["user"; "tweets"] (GetUserTweets_params "44196397" [])
    (sample_world [sample_page "t" ["a"; "b"]%byte])
  = Panic.
Proof.
  refine (proj2 (proj2 (failed_New_client_panics
                          (std := sample_std) (T := byte) (json_R := sample_json)
                          "KEY" [WithHost (std := sample_std) sample_bad_host]
                          _ (Errorf_w "bad option"
                               (Errorf_w "invalid host"
                                  (foreign "net/url: invalid control character in URL")))
                          ["user"; "tweets"] (GetUserTweets_params "44196397" [])
                          (sample_world [sample_page "t" ["a"; "b"]%byte])
                          eq_refl))).
Defined.

(** One answer whose body is the username. *)
Lemma getResult_round_trip_witness :
  getResult (std := sample_std) (R := getUsernameResponse)
    (json_R := sample_json_username)
    sample_client ["user"; "username"]
    [ {| key := "user_id"; value := any_string "44196397" |} ]
    (sample_world [Do_resp 200 (ReadAll_ok ["e"; "l"; "o"; "n"]%byte)])
  = Ret ("elon", None)
        {| pending := [];
           sent := [ request_to "KEY" "twitter154.p.rapidapi.com"
                       "https://twitter154.p.rapidapi.com/user/username?user_id=44196397" ];
           taken := 1 |}.
Proof.
  refine (proj1 (getResult_round_trip
                   (std := sample_std) (T := string) (R := getUsernameResponse)
                   (json_R := sample_json_username))
                "KEY" "twitter154.p.rapidapi.com" ratelimit_NewUnlimited
                http_DefaultClient
                ["user"; "username"]
                [ {| key := "user_id"; value := any_string "44196397" |} ]
                (sample_world [Do_resp 200 (ReadAll_ok ["e"; "l"; "o"; "n"]%byte)])
                (Do_resp 200 (ReadAll_ok ["e"; "l"; "o"; "n"]%byte)) []
                ["e"; "l"; "o"; "n"]%byte {| UserId := ""; Username := "elon" |}
                eq_refl eq_refl _ eq_refl).
  sample_delivers.
Defined.

(** Two pages with items and no third answer. *)
Lemma getResultPaginated_needs_empty_page_witness :
  getResultPaginated (std := sample_std) (json_R := sample_json)
    sample_client ["user"; "tweets"] (GetUserTweets_params "44196397" [])
    (sample_world [sample_page "t" ["a"; "b"]; sample_page "u" ["c"]]%byte)
  = Starved.
Proof.
  refine (getResultPaginated_needs_empty_page
            (std := sample_std) (T := byte) (json_R := sample_json)
            "KEY" "twitter154.p.rapidapi.com" ratelimit_NewUnlimited http_DefaultClient
            ["user"; "tweets"] (GetUserTweets_params "44196397" [])
            [page_ab_t; page_c_u]
            [sample_page "t" ["a"; "b"]; sample_page "u" ["c"]]%byte [] 0 _ _ _ _).
  - sample_fetched.
  - sample_all.
  - reflexivity.
  - sample_all.
Defined.

(** The replies [[a,b], [c]], the second page with the empty token. *)
Lemma legacy_GetTweetReplies_all_pages_witness :
  exists w',
    Legacy.GetTweetReplies (std := sample_std) (json_replies := sample_json_replies)
      sample_client "1"
      (sample_world [sample_page "t" ["a"; "b"]; sample_page "0" ["c"]]%byte)
    = Ret (["a"; "b"; "c"]%byte, None) w'
    /\ pending w' = []
    /\ taken w' = 2
    /\ sent w' =
       [ request_to "KEY" "twitter154.p.rapidapi.com"
           "https://twitter154.p.rapidapi.com/tweet/replies?tweet_id=1";
         request_to "KEY" "twitter154.p.rapidapi.com"
           "https://twitter154.p.rapidapi.com/tweet/replies/continuation?tweet_id=1&continuation_token=t" ].
Proof.
  refine (legacy_GetTweetReplies_all_pages
            (std := sample_std) (json_replies := sample_json_replies)
            "KEY" "twitter154.p.rapidapi.com" ratelimit_NewUnlimited http_DefaultClient
            "1" [replies_ab_t] replies_c_end
            [sample_page "t" ["a"; "b"]; sample_page "0" ["c"]]%byte [] [] 0 _ _ _ _ _).
  - sample_fetched.
  - sample_all.
  - reflexivity.
  - reflexivity.
  - sample_all.
Defined.


(** The hand-written [GetUserTweets] on a run whose second answer is a
    500. *)
Lemma legacy_calls_report_witness :
  issued sample_client
    (sample_world [sample_page "t" ["a"; "b"]%byte; Do_resp 500 (ReadAll_ok [])])
    {| pending := [];
       sent := [ request_to "KEY" "twitter154.p.rapidapi.com"
                   (legacy_url_of "twitter154.p.rapidapi.com" ["user"; "tweets"]
                      (GetUserTweets_params "44196397" []));
                 request_to "KEY" "twitter154.p.rapidapi.com"
                   (legacy_url_of "twitter154.p.rapidapi.com"
                      ["user"; "tweets"; "continuation"]
                      (GetUserTweets_params "44196397" [] ++ [continuation_param "t"])) ];
       taken := 2 |}
  /\ forall e, Some (Errorf_w "get user" (Errorf_status 500)) = Some e ->
               @nil byte = [] /\ call_failure (json_R := sample_json) "get user" e.
Proof.
  refine (proj1 (legacy_calls_report
                   (std := sample_std) (Tweet := byte) (json_tweets := sample_json)
                   (json_replies := sample_json_replies))
                sample_client "44196397" [] _ _ []
                (Some (Errorf_w "get user" (Errorf_status 500))) _).
  reflexivity.
Defined.

(** The tweets [[a,b], [c], []]: the list returned is [c]. *)
Lemma legacy_GetUserTweets_drops_first_page_witness :
  exists w',
    Legacy.GetUserTweets (std := sample_std) (json_tweets := sample_json)
      sample_client "44196397" []
      (sample_world [sample_page "t" ["a"; "b"]; sample_page "u" ["c"];
                     sample_page "0" []]%byte)
    = Ret (["c"]%byte, None) w'
    /\ pending w' = []
    /\ taken w' = 3
    /\ sent w' =
       [ request_to "KEY" "twitter154.p.rapidapi.com"
           "https://twitter154.p.rapidapi.com/user/tweets?user_id=44196397&limit=100&include_replies=false&include_pinned=false";
         request_to "KEY" "twitter154.p.rapidapi.com"
           "https://twitter154.p.rapidapi.com/user/tweets/continuation?user_id=44196397&limit=100&include_replies=false&include_pinned=false&continuation_token=t";
         request_to "KEY" "twitter154.p.rapidapi.com"
           "https://twitter154.p.rapidapi.com/user/tweets/continuation?user_id=44196397&limit=100&include_replies=false&include_pinned=false&continuation_token=u" ].
Proof.
  refine (legacy_GetUserTweets_drops_first_page
            (std := sample_std) (json_tweets := sample_json)
            "KEY" "twitter154.p.rapidapi.com" ratelimit_NewUnlimited http_DefaultClient
            "44196397" [] [page_ab_t; page_c_u] page_none_end
            [sample_page "t" ["a"; "b"]; sample_page "u" ["c"]; sample_page "0" []]%byte
            [] [] 0 _ _ _ _ _).
  - sample_fetched.
  - sample_all.
  - reflexivity.
  - reflexivity.
  - sample_all.
Defined.

(** [GetUsername] and [GetUser] on one answer. *)
Lemma single_result_endpoints_witness :
  GetUsername (std := sample_std) (json_username := sample_json_username)
    sample_client "44196397"
    (sample_world [Do_resp 200 (ReadAll_ok ["e"; "l"; "o"; "n"]%byte)])
  = Ret ("elon", None)
        {| pending := [];
           sent := [ request_to "KEY" "twitter154.p.rapidapi.com"
                       "https://twitter154.p.rapidapi.com/user/username?user_id=44196397" ];
           taken := 1 |}.
Proof.
  refine (proj1 (single_result_endpoints
                   (std := sample_std) (Tweet := string) (User := string)
                   (json_username := sample_json_username)
                   (json_User := sample_json_text) (json_Tweet := sample_json_text)
                   "KEY" "twitter154.p.rapidapi.com" ratelimit_NewUnlimited
                   http_DefaultClient
                   (sample_world [Do_resp 200 (ReadAll_ok ["e"; "l"; "o"; "n"]%byte)])
                   (Do_resp 200 (ReadAll_ok ["e"; "l"; "o"; "n"]%byte)) []
                   ["e"; "l"; "o"; "n"]%byte eq_refl _)
                "44196397" {| UserId := ""; Username := "elon" |} eq_refl eq_refl).
  sample_delivers.
Defined.

(** The users [[a,b], [c]], the second page with the empty token: the
    list returned is [c]. *)
Lemma legacy_follow_lists_drop_first_page_witness :
  exists w',
    Legacy.GetUserFollowing (std := sample_std) (json_follows := sample_json_follows)
      sample_client "44196397"
      (sample_world [sample_page "t" ["a"; "b"]; sample_page "0" ["c"]]%byte)
    = Ret (["c"]%byte, None) w'
    /\ pending w' = []
    /\ length (sent w') = 0 + 2
    /\ taken w' = 0 + 2.
Proof.
  refine (proj1 (legacy_follow_lists_drop_first_page
                   (std := sample_std) (json_follows := sample_json_follows)
                   "KEY" "twitter154.p.rapidapi.com" ratelimit_NewUnlimited
                   http_DefaultClient "44196397"
                   [ {| follows_Results := ["a"; "b"]%byte;
                        follows_ContinuationToken := "t" |} ]
                   {| follows_Results := ["c"]%byte; follows_ContinuationToken := "" |}
                   [sample_page "t" ["a"; "b"]; sample_page "0" ["c"]]%byte [] [] 0
                   _ _ _) _ _).
  - sample_fetched.
  - sample_all.
  - reflexivity.
  - reflexivity.
  - sample_all.
Defined.

(** The same answers to [GetTweetUserFavorites]: the list returned is
    [a, b, c]. *)
Lemma legacy_GetTweetUserFavorites_all_pages_witness :
  exists w',
    Legacy.GetTweetUserFavorites (std := sample_std)
      (json_favorites := sample_json_favorites)
      sample_client "1"
      (sample_world [sample_page "t" ["a"; "b"]; sample_page "0" ["c"]]%byte)
    = Ret (["a"; "b"; "c"]%byte, None) w'
    /\ pending w' = []
    /\ length (sent w') = 0 + 2
    /\ taken w' = 0 + 2.
Proof.
  refine (legacy_GetTweetUserFavorites_all_pages
            (std := sample_std) (json_favorites := sample_json_favorites)
            "KEY" "twitter154.p.rapidapi.com" ratelimit_NewUnlimited
            http_DefaultClient "1"
            [ {| Legacy.Favorites := ["a"; "b"]%byte;
                 Legacy.Favorites_ContinuationToken := "t" |} ]
            {| Legacy.Favorites := ["c"]%byte; Legacy.Favorites_ContinuationToken := "" |}
            [sample_page "t" ["a"; "b"]; sample_page "0" ["c"]]%byte [] [] 0
            _ _ _ _ _).
  - sample_fetched.
  - sample_all.
  - reflexivity.
  - reflexivity.
  - sample_all.
Defined.

(** The hand-written [GetUsername] on one answer. *)
Lemma legacy_GetUsername_asks_user_id_witness :
  Legacy.GetUsername (std := sample_std) (json_username := sample_json_username)
    sample_client "44196397"
    (sample_world [Do_resp 200 (ReadAll_ok ["e"; "l"; "o"; "n"]%byte)])
  = Ret ("elon", None)
        {| pending := [];
           sent := [ request_to "KEY" "twitter154.p.rapidapi.com"
                       "https://twitter154.p.rapidapi.com/user/id?user_id=44196397" ];
           taken := 1 |}
  /\ "https://twitter154.p.rapidapi.com/user/id?user_id=44196397"
     <> "https://twitter154.p.rapidapi.com/user/username?user_id=44196397".
Proof.
  split.
  - refine (proj1 (legacy_GetUsername_asks_user_id
                     (std := sample_std) (json_username := sample_json_username)
                     "KEY" "twitter154.p.rapidapi.com" ratelimit_NewUnlimited
                     http_DefaultClient "44196397")
                  (sample_world [Do_resp 200 (ReadAll_ok ["e"; "l"; "o"; "n"]%byte)])
                  (Do_resp 200 (ReadAll_ok ["e"; "l"; "o"; "n"]%byte)) []
                  ["e"; "l"; "o"; "n"]%byte {| UserId := ""; Username := "elon" |}
                  eq_refl _ eq_refl eq_refl).
    sample_delivers.
  - exact (proj2 (legacy_GetUsername_asks_user_id
                    (std := sample_std) (json_username := sample_json_username)
                    "KEY" "twitter154.p.rapidapi.com" ratelimit_NewUnlimited
                    http_DefaultClient "44196397")).
Defined.
